(** * A shallow embedding of the WebGPU ray tracer of [src/main.ts]

    The repository is one TypeScript file.  It carries two WGSL programs as
    string literals (the compute kernel with its geometry helpers, and the
    presentation shader) and the host code that allocates the GPU resources,
    records one compute pass and one render pass per frame, and reacts to
    resize notifications.

    The file has the embedding first (scalars and vectors, the WGSL
    structs and functions of the kernel, the storage texture and the
    dispatch, the WebGPU objects and the host functions), then the
    vocabulary of the statements and the inputs they are evaluated at, then
    the properties.  The presentation shader ([vertexMain], [fragmentMain])
    takes no part in them and is not embedded.

    The kernel computes on [f32].  Its arithmetic is embedded as IEEE 754
    binary32 with round-to-nearest-even, through the parametric
    specification [SpecFloat] of the Standard Library instantiated at
    precision 24 and exponent bound 128.  WGSL grants implementations some
    latitude (accuracy of [sqrt], of [/] and of the builtins that are defined
    through them, behaviour on infinities and NaN); the embedding fixes the
    correctly rounded IEEE result everywhere, and writes [dot], [length] and
    [normalize] out by their WGSL definitions. *)

From Stdlib Require Import ZArith Bool List Lia SpecFloat QArith Qround.
From stdpp Require Import gmap.

Set Default Proof Using "Type".
Local Open Scope Z_scope.

(** ** Scalars: [f32] *)

Module F32.

Definition prec : Z := 24.
Definition emax : Z := 128.

Definition f32 : Type := spec_float.

Definition add : f32 -> f32 -> f32 := SFadd prec emax.
Definition sub : f32 -> f32 -> f32 := SFsub prec emax.
Definition mul : f32 -> f32 -> f32 := SFmul prec emax.
Definition div : f32 -> f32 -> f32 := SFdiv prec emax.
Definition sqrt : f32 -> f32 := SFsqrt prec emax.
Definition neg : f32 -> f32 := SFopp.
Definition ltb : f32 -> f32 -> bool := SFltb.
Definition leb : f32 -> f32 -> bool := SFleb.

(** [f32(n)] for an integer [n] (the value conversion of WGSL): the nearest
    binary32 value. *)
Definition of_Z (n : Z) : f32 := binary_normalize prec emax n 0 false.

(** A decimal literal [n/d]: the binary32 value nearest to the quotient. *)
Definition lit (n : Z) (d : positive) : f32 := div (of_Z n) (of_Z (Zpos d)).

Definition is_nan (a : f32) : bool :=
  match a with S754_nan => true | _ => false end.

(** The values of type [spec_float] that are binary32 numbers. *)
Definition valid (a : f32) : bool := valid_binary prec emax a.

End F32.

Import F32(f32).

Declare Scope f32_scope.
Delimit Scope f32_scope with f32.
Bind Scope f32_scope with f32.
Infix "+" := F32.add : f32_scope.
Infix "-" := F32.sub : f32_scope.
Infix "*" := F32.mul : f32_scope.
Infix "/" := F32.div : f32_scope.
Notation "- a" := (F32.neg a) : f32_scope.
Infix "<?" := F32.ltb : f32_scope.
Infix "<=?" := F32.leb : f32_scope.
(** [a >? b] and [a >=? b] of the source are [b <? a] and [b <=? a]. *)
Notation "a >? b" := (F32.ltb b a) (only parsing) : f32_scope.
Notation "a >=? b" := (F32.leb b a) (only parsing) : f32_scope.

(** The literals of the two shaders. *)
Definition f0_0 : f32 := F32.of_Z 0.
Definition f1_0 : f32 := F32.of_Z 1.
Definition f2_0 : f32 := F32.of_Z 2.
Definition f0_5 : f32 := F32.lit 5 10.
Definition f0_7 : f32 := F32.lit 7 10.
Definition f10000_0 : f32 := F32.of_Z 10000.
Definition fm1_0 : f32 := (- f1_0)%f32.

(** ** Vectors *)

Record vec2 (A : Type) : Type := Vec2 { v2x : A; v2y : A }.
Arguments Vec2 {A} _ _.
Arguments v2x {A} _.
Arguments v2y {A} _.

Record vec3 : Type := Vec3 { vx : f32; vy : f32; vz : f32 }.
Record vec4 : Type := Vec4 { wx : f32; wy : f32; wz : f32; ww : f32 }.

Declare Scope vec3_scope.
Delimit Scope vec3_scope with v3.
Bind Scope vec3_scope with vec3.

Module V3.
Local Open Scope f32_scope.

Definition map2 (f : f32 -> f32 -> f32) (a b : vec3) : vec3 :=
  Vec3 (f (vx a) (vx b)) (f (vy a) (vy b)) (f (vz a) (vz b)).

Definition add : vec3 -> vec3 -> vec3 := map2 F32.add.
Definition sub : vec3 -> vec3 -> vec3 := map2 F32.sub.
Definition neg (a : vec3) : vec3 := Vec3 (- vx a) (- vy a) (- vz a).
(** vector [*] scalar, scalar [*] vector, vector [/] scalar *)
Definition scale (a : vec3) (s : f32) : vec3 :=
  Vec3 (vx a * s) (vy a * s) (vz a * s).
Definition scale_l (s : f32) (a : vec3) : vec3 :=
  Vec3 (s * vx a) (s * vy a) (s * vz a).
Definition divs (a : vec3) (s : f32) : vec3 :=
  Vec3 (vx a / s) (vy a / s) (vz a / s).

(** [dot(a, b)]: the sum of the component products, left to right. *)
Definition dot (a b : vec3) : f32 :=
  vx a * vx b + vy a * vy b + vz a * vz b.

(** [length(a) = sqrt(dot(a, a))] and [normalize(a) = a / length(a)]. *)
Definition length (a : vec3) : f32 := F32.sqrt (dot a a).
Definition normalize (a : vec3) : vec3 := divs a (length a).
End V3.

Infix "+" := V3.add : vec3_scope.
Infix "-" := V3.sub : vec3_scope.
Notation "- a" := (V3.neg a) : vec3_scope.
Infix "*^" := V3.scale (at level 40, left associativity) : vec3_scope.
Infix "^*" := V3.scale_l (at level 40, left associativity) : vec3_scope.
Infix "/^" := V3.divs (at level 40, left associativity) : vec3_scope.

(** ** The WGSL structs *)

Record Ray : Type := mkRay { origin : vec3; direction : vec3 }.

Record Sphere : Type := mkSphere { center : vec3; radius : f32 }.

Record HitRecord : Type := mkHitRecord {
  rec_p : vec3;
  rec_normal : vec3;
  rec_t : f32;
  rec_hit : bool;
  rec_front_face : bool
}.

Record FaceNormalRecord : Type := mkFaceNormalRecord {
  fnr_front_face : bool;
  fnr_normal : vec3
}.

(** A [var] declared without initialiser holds the zero value of its type. *)
Definition zero_vec3 : vec3 := Vec3 f0_0 f0_0 f0_0.
Definition zero_HitRecord : HitRecord :=
  mkHitRecord zero_vec3 zero_vec3 f0_0 false false.

(** ** The geometry helpers ([hittableShapesShader]) and the kernel *)

Section Shader.
Local Open Scope f32_scope.

(** [fn rayAt(ray: Ray, t: f32) -> vec3<f32>] *)
Definition rayAt (ray : Ray) (t : f32) : vec3 :=
  (origin ray + direction ray *^ t)%v3.

(** [fn setFaceNormal(rec, r, outwardNormal) -> FaceNormalRecord];
    the parameter [rec] is not used by the body. *)
Definition setFaceNormal (rec : HitRecord) (r : Ray) (outwardNormal : vec3)
  : FaceNormalRecord :=
  let frontFaceDirections := V3.dot (direction r) outwardNormal in
  if frontFaceDirections <? f0_0
  then mkFaceNormalRecord true outwardNormal
  else mkFaceNormalRecord false (- outwardNormal)%v3.

(** The quantities [hit_sphere] computes before it branches. *)
Definition hs_oc (sphere : Sphere) (r : Ray) : vec3 :=
  (center sphere - origin r)%v3.
Definition hs_a (r : Ray) : f32 := V3.dot (direction r) (direction r).
Definition hs_h (sphere : Sphere) (r : Ray) : f32 :=
  V3.dot (direction r) (hs_oc sphere r).
Definition hs_c (sphere : Sphere) (r : Ray) : f32 :=
  V3.dot (hs_oc sphere r) (hs_oc sphere r) - radius sphere * radius sphere.
Definition hs_discriminant (sphere : Sphere) (r : Ray) : f32 :=
  hs_h sphere r * hs_h sphere r - hs_a r * hs_c sphere r.
Definition hs_sqrtd (sphere : Sphere) (r : Ray) : f32 :=
  F32.sqrt (hs_discriminant sphere r).
Definition hs_root1 (sphere : Sphere) (r : Ray) : f32 :=
  (hs_h sphere r - hs_sqrtd sphere r) / hs_a r.
Definition hs_root2 (sphere : Sphere) (r : Ray) : f32 :=
  (hs_h sphere r + hs_sqrtd sphere r) / hs_a r.

(** The tail of [hit_sphere], after a root has been accepted. *)
Definition hs_accept (sphere : Sphere) (r : Ray) (root : f32) : HitRecord :=
  let t := root in
  let p := rayAt r t in
  let normal := ((p - center sphere) /^ radius sphere)%v3 in
  let faceNormalRec :=
    setFaceNormal (mkHitRecord p normal t false false) r normal in
  mkHitRecord p (fnr_normal faceNormalRec) t true
              (fnr_front_face faceNormalRec).

(** [fn hit_sphere(sphere, r, ray_tmin, ray_tmax) -> HitRecord] *)
Definition hit_sphere (sphere : Sphere) (r : Ray) (ray_tmin ray_tmax : f32)
  : HitRecord :=
  let rec := zero_HitRecord in
  let discriminant := hs_discriminant sphere r in
  if discriminant <? f0_0 then rec
  else
    let root := hs_root1 sphere r in
    if (root <=? ray_tmin) || (ray_tmax <=? root) then
      let root := hs_root2 sphere r in
      if (root <=? ray_tmin) || (ray_tmax <=? root) then rec
      else hs_accept sphere r root
    else hs_accept sphere r root.

(** [fn lerp(a, b, t)] *)
Definition lerp (a b : vec3) (t : f32) : vec3 :=
  (a *^ (f1_0 - t) + b *^ t)%v3.

(** The one sphere of the scene, and the colours of the gradient. *)
Definition scene_sphere : Sphere := mkSphere (Vec3 f0_0 f0_0 fm1_0) f0_5.
Definition white : vec3 := Vec3 f1_0 f1_0 f1_0.
Definition skyBlue : vec3 := Vec3 f0_5 f0_7 f1_0.

(** The part of [rayColor] that follows the call of [hit_sphere]: what the
    shading does with the record it got. *)
Definition shade (ray : Ray) (rec : HitRecord) : vec3 :=
  if rec_t rec >? f0_0 then
    let N := V3.normalize (rayAt ray (rec_t rec) - Vec3 f0_0 f0_0 fm1_0)%v3 in
    (f0_5 ^* Vec3 (vx N + f1_0) (vy N + f1_0) (vz N + f1_0))%v3
  else
    let unit_direction := V3.normalize (direction ray) in
    let a := f0_5 * (vy unit_direction + f1_0) in
    lerp white skyBlue a.

(** [fn rayColor(ray: Ray) -> vec3<f32>] *)
Definition rayColor (ray : Ray) : vec3 :=
  let rec := hit_sphere scene_sphere ray f0_0 f10000_0 in
  shade ray rec.

End Shader.

(** ** The storage texture and the compute entry point *)

(** [u32] values are naturals; the conversion [vec2<i32>(coords)] keeps the
    bit pattern, so values from [2^31] on become negative. *)
Definition u32 : Type := N.

Definition i32_of_u32 (n : u32) : Z :=
  let z := Z.of_N n mod 2 ^ 32 in
  if z <? 2 ^ 31 then z else z - 2 ^ 32.

Definition f32_of_u32 (n : u32) : f32 := F32.of_Z (Z.of_N n).

Record uvec3 : Type := UVec3 { idx : u32; idy : u32; idz : u32 }.

(** [texture_storage_2d<rgba8unorm, write>]: its dimensions and the texels
    stored so far, by their [i32] coordinates.  The texels are kept as the
    [vec4<f32>] values handed to [textureStore]; the conversion to the
    texel format is the API's and is a function of that value. *)
Record Texture : Type := mkTexture {
  tex_dims : vec2 u32;
  tex_texels : gmap (Z * Z) vec4
}.

Definition textureDimensions (output : Texture) : vec2 u32 := tex_dims output.

(** [textureStore] is modelled without the bounds check of the API: it
    writes wherever it is told to. *)
Definition textureStore (output : Texture) (coords : vec2 Z) (value : vec4)
  : Texture :=
  mkTexture (tex_dims output)
            (<[ (v2x coords, v2y coords) := value ]> (tex_texels output)).

Section Kernel.
Local Open Scope f32_scope.

(** [fn createRay(uv: vec2<f32>) -> Ray]; it reads the dimensions of the
    module-scope variable [output]. *)
Definition createRay (output : Texture) (uv : vec2 f32) : Ray :=
  let aspectRatio :=
    f32_of_u32 (v2x (textureDimensions output))
    / f32_of_u32 (v2y (textureDimensions output)) in
  let origin := Vec3 f0_0 f0_0 f0_0 in
  let direction := Vec3 (v2x uv * aspectRatio) (v2y uv) fm1_0 in
  mkRay origin (V3.normalize direction).

(** [(vec2<f32>(coords) + 0.5) / vec2<f32>(dims) * 2.0 - 1.0] *)
Definition pixel_uv (dims coords : vec2 u32) : vec2 f32 :=
  Vec2 ((f32_of_u32 (v2x coords) + f0_5) / f32_of_u32 (v2x dims) * f2_0 - f1_0)
       ((f32_of_u32 (v2y coords) + f0_5) / f32_of_u32 (v2y dims) * f2_0 - f1_0).

(** [@compute @workgroup_size(8, 8) fn main(id)]: one invocation, as a
    function from the texture before it to the texture after it. *)
Definition main (output : Texture) (id : uvec3) : Texture :=
  let dims := textureDimensions output in
  let coords := Vec2 (idx id) (idy id) in
  if (v2x dims <=? v2x coords)%N || (v2y dims <=? v2y coords)%N then output
  else
    let uv := pixel_uv dims coords in
    let ray := createRay output uv in
    let pixel_color := rayColor ray in
    textureStore output
      (Vec2 (i32_of_u32 (v2x coords)) (i32_of_u32 (v2y coords)))
      (Vec4 (vx pixel_color) (vy pixel_color) (vz pixel_color) f1_0).

End Kernel.

(** *** The dispatch

    [dispatchWorkgroups(gx, gy)] starts the entry point once for every global
    invocation id of [gx * gy] workgroups of size [8 x 8 x 1].  The order in
    which the invocations run is not fixed: a run of the dispatch is the fold
    of [main] over the ids in any order. *)

Definition workgroup_size : N := 8.

Definition grid_ids (gx gy : N) : list uvec3 :=
  y ← seq 0 (N.to_nat (workgroup_size * gy));
  x ← seq 0 (N.to_nat (workgroup_size * gx));
  [UVec3 (N.of_nat x) (N.of_nat y) 0%N].

Definition run_invocations (ids : list uvec3) (output : Texture) : Texture :=
  fold_left main ids output.

(** ** The vertex stage of the presentation shader

    [vertexMain] indexes two constant arrays of four elements with the
    vertex index.  The draw call of the host issues the indices 0 to 3; on
    an index outside the arrays WGSL fixes no result, and the embedding
    answers [None] there. *)

Record VertexOutput : Type := mkVertexOutput {
  position : vec4;
  uv : vec2 f32
}.

Definition quad_pos : list (vec2 f32) :=
  [ Vec2 fm1_0 fm1_0; Vec2 f1_0 fm1_0; Vec2 fm1_0 f1_0; Vec2 f1_0 f1_0 ].

Definition quad_uv : list (vec2 f32) :=
  [ Vec2 f0_0 f0_0; Vec2 f1_0 f0_0; Vec2 f0_0 f1_0; Vec2 f1_0 f1_0 ].

(** [@vertex fn vertexMain(@builtin(vertex_index) vertexIndex: u32)] *)
Definition vertexMain (vertexIndex : u32) : option VertexOutput :=
  match quad_pos !! N.to_nat vertexIndex, quad_uv !! N.to_nat vertexIndex with
  | Some pos, Some uv =>
      Some (mkVertexOutput (Vec4 (v2x pos) (v2y pos) f0_0 f1_0) uv)
  | _, _ => None
  end.

(** ** The host program ([main.ts])

    JavaScript numbers that hold integers (sizes, counts) are integers of
    [Z]; the one computation that leaves the integers, the height
    [Math.floor(width / (16.0 / 9.0))], is carried out in binary64. *)

Module F64.
Definition prec : Z := 53.
Definition emax : Z := 1024.
Definition div : spec_float -> spec_float -> spec_float := SFdiv prec emax.
Definition of_Z (n : Z) : spec_float := binary_normalize prec emax n 0 false.

(** [Math.floor] of a finite number, as an integer. *)
Definition floor (a : spec_float) : Z :=
  match a with
  | S754_finite s m e => Z.shiftl (cond_Zopp s (Zpos m)) e
  | _ => 0
  end.
End F64.

(** *** The part of the WebGPU API the host uses

    Objects live in the device under handles.  The device keeps what was
    created, what was submitted to its queue, and the calls in the order in
    which they were made. *)

Module Gpu.

Definition handle : Type := nat.

Inductive ShaderCode : Type := ComputeShaderCode | RenderShaderCode.

Inductive BindingResource : Type :=
| ResSampler (s : handle)
| ResTextureView (texture : handle).

Inductive GPUObject : Type :=
| GPUShaderModule (code : ShaderCode)
| GPUComputePipeline (module : handle)
| GPURenderPipeline (module : handle)
| GPUTexture (width height : Z) (destroyed : bool)
| GPUSampler
| GPUBindGroup (layout_of : handle) (entries : list (nat * BindingResource)).

Inductive Pass : Type :=
| ComputePass (pipeline bindGroup0 : handle) (workgroups : Z * Z)
| RenderPass (target_size : Z * Z) (pipeline bindGroup0 : handle)
             (vertices : Z).

Definition CommandBuffer : Type := list Pass.

Inductive Call : Type :=
| CallConfigure (size : option (Z * Z))
| CallCreate (h : handle) (o : GPUObject)
| CallDestroy (h : handle)
| CallCreateCommandEncoder
| CallSubmit (cb : CommandBuffer).

Record Device : Type := mkDevice {
  limits_maxTextureDimension2D : Z;
  next_handle : handle;
  objects : gmap handle GPUObject;
  queue : list CommandBuffer;
  calls : list Call
}.

(** Device operations, as a state monad over the device. *)
Definition Dev (A : Type) : Type := Device -> A * Device.
Definition ret {A} (a : A) : Dev A := fun d => (a, d).
Definition bind {A B} (m : Dev A) (k : A -> Dev B) : Dev B :=
  fun d => let (a, d') := m d in k a d'.

Definition log (c : Call) : Dev unit :=
  fun d => (tt, mkDevice (limits_maxTextureDimension2D d) (next_handle d)
                         (objects d) (queue d) (calls d ++ [c])).

(** Every [create...] call allocates the next handle. *)
Definition create (o : GPUObject) : Dev handle :=
  fun d =>
    let h := next_handle d in
    (h, mkDevice (limits_maxTextureDimension2D d) (S h)
                 (<[ h := o ]> (objects d)) (queue d)
                 (calls d ++ [CallCreate h o])).

Definition createShaderModule (code : ShaderCode) : Dev handle :=
  create (GPUShaderModule code).
Definition createComputePipeline (module : handle) : Dev handle :=
  create (GPUComputePipeline module).
Definition createRenderPipeline (module : handle) : Dev handle :=
  create (GPURenderPipeline module).
Definition createTexture (size : Z * Z) : Dev handle :=
  create (GPUTexture (fst size) (snd size) false).
Definition createSampler : Dev handle := create GPUSampler.
Definition createBindGroup (layout_of : handle)
           (entries : list (nat * BindingResource)) : Dev handle :=
  create (GPUBindGroup layout_of entries).

Definition createCommandEncoder : Dev unit := log CallCreateCommandEncoder.

Definition submit (cb : CommandBuffer) : Dev unit :=
  fun d => (tt, mkDevice (limits_maxTextureDimension2D d) (next_handle d)
                         (objects d) (queue d ++ [cb])
                         (calls d ++ [CallSubmit cb])).

(** [GPUTexture.destroy()].  [main.ts] never calls it; it is here to say
    what a destroyed texture is. *)
Definition destroy (h : handle) : Dev unit :=
  fun d =>
    let objs :=
      match objects d !! h with
      | Some (GPUTexture w ht _) => <[ h := GPUTexture w ht true ]> (objects d)
      | _ => objects d
      end in
    (tt, mkDevice (limits_maxTextureDimension2D d) (next_handle d)
                  objs (queue d) (calls d ++ [CallDestroy h])).

(** The textures that exist: created and not destroyed. *)
Definition is_live_texture (o : GPUObject) : bool :=
  match o with GPUTexture _ _ false => true | _ => false end.

Definition live_texture (d : Device) (h : handle) : bool :=
  match objects d !! h with
  | Some o => is_live_texture o
  | None => false
  end.

Definition live_textures (d : Device) : gmap handle GPUObject :=
  filter (fun ho => is_live_texture ho.2) (objects d).

End Gpu.

(** *** [main.ts]: the closure variables of [main] and its functions *)

Module Host.
Import Gpu.

Notation "'let*' x ':=' m 'in' k" := (Gpu.bind m (fun x => k))
  (at level 10, x binder, m at level 100, k at level 200, only parsing).

(** What [createComputeShader] returns. *)
Record ComputeShader : Type := mkComputeShader {
  pipeline : handle;
  bindGroup : handle;
  texture : handle
}.

(** The entry of a resize notification: the observed element is the one
    canvas of the page, and the entry brings its new content size. *)
Record ResizeObserverEntry : Type := mkEntry {
  contentRect_width : Z;
  contentRect_height : Z
}.

Record State : Type := mkState {
  device : Device;
  canvas_width : Z;
  canvas_height : Z;
  (** the [size] member of the last [context.configure] *)
  context_size : option (Z * Z);
  textureSize : Z * Z;
  computeShader : ComputeShader;
  renderPipeline : handle;
  sampler : handle;
  renderBindGroup : handle
}.

(** [const width = 400; const aspectRation = 16.0 / 9.0;
     const height = Math.floor(width / aspectRation);] *)
Definition width : Z := 400.
Definition aspectRation : spec_float := F64.div (F64.of_Z 16) (F64.of_Z 9).
Definition height : Z := F64.floor (F64.div (F64.of_Z width) aspectRation).

(** [Math.max(1, Math.min(n, device.limits.maxTextureDimension2D))] *)
Definition clamp_dimension (d : Device) (n : Z) : Z :=
  Z.max 1 (Z.min n (limits_maxTextureDimension2D d)).

(** [Math.ceil(n / 8)] *)
Definition ceil_div8 (n : Z) : Z := Qceiling (inject_Z n / inject_Z 8).

(** [function createComputeShader(device, textureSize)] *)
Definition createComputeShader (textureSize : Z * Z) : Dev ComputeShader :=
  let* module := createShaderModule ComputeShaderCode in
  let* pipeline := createComputePipeline module in
  let* texture := createTexture textureSize in
  let* bindGroup :=
    createBindGroup pipeline [(0%nat, ResTextureView texture)] in
  Gpu.ret (mkComputeShader pipeline bindGroup texture).

(** [function createRenderPipeline(device, format)] *)
Definition createRenderPipeline : Dev handle :=
  let* module := createShaderModule RenderShaderCode in
  Gpu.createRenderPipeline module.

Definition set_device (s : State) (d : Device) : State :=
  mkState d (canvas_width s) (canvas_height s) (context_size s)
          (textureSize s) (computeShader s) (renderPipeline s) (sampler s)
          (renderBindGroup s).

(** [function updateBindGroups()] *)
Definition updateBindGroups (s : State) : State :=
  let (bg, d) :=
    createBindGroup (renderPipeline s)
      [(0%nat, ResSampler (sampler s));
       (1%nat, ResTextureView (texture (computeShader s)))] (device s) in
  mkState d (canvas_width s) (canvas_height s) (context_size s)
          (textureSize s) (computeShader s) (renderPipeline s) (sampler s)
          bg.

(** The command buffer [render] records. *)
Definition frame_commands (s : State) : CommandBuffer :=
  [ ComputePass (pipeline (computeShader s)) (bindGroup (computeShader s))
                (ceil_div8 (fst (textureSize s)),
                 ceil_div8 (snd (textureSize s)));
    RenderPass (canvas_width s, canvas_height s)
               (renderPipeline s) (renderBindGroup s) 4 ].

(** [function render()] *)
Definition render (s : State) : State :=
  let (_, d) :=
    (let* _ := createCommandEncoder in submit (frame_commands s)) (device s) in
  set_device s d.

(** [context.configure({ device, format, size })] *)
Definition configure (size : option (Z * Z)) (s : State) : State :=
  let (_, d) := log (CallConfigure size) (device s) in
  mkState d (canvas_width s) (canvas_height s) size
          (textureSize s) (computeShader s) (renderPipeline s) (sampler s)
          (renderBindGroup s).

(** The body of the loop of the [ResizeObserver] callback, for one entry.
    Of the entry the source reads [entry.target] only, which is the canvas;
    [width] and [height] are the constants above. *)
Definition on_resize_entry (entry : ResizeObserverEntry) (s : State) : State :=
  let cw := clamp_dimension (device s) width in
  let ch := clamp_dimension (device s) height in
  let s := mkState (device s) cw ch (context_size s) (textureSize s)
                   (computeShader s) (renderPipeline s) (sampler s)
                   (renderBindGroup s) in
  let s := configure (Some (canvas_width s, canvas_height s)) s in
  let textureSize := (canvas_width s, canvas_height s) in
  let (cs, d) := createComputeShader textureSize (device s) in
  let s := mkState d (canvas_width s) (canvas_height s) (context_size s)
                   textureSize cs (renderPipeline s) (sampler s)
                   (renderBindGroup s) in
  let s := updateBindGroups s in
  render s.

(** The callback: [for (const entry of entries) { ... }] *)
Definition on_resize (entries : list ResizeObserverEntry) (s : State) : State :=
  fold_left (fun s entry => on_resize_entry entry s) entries s.

(** A device as [initWebGPU] hands it over: nothing created yet, the
    context configured without a size. *)
Definition fresh_device (maxTextureDimension2D : Z) : Device :=
  mkDevice maxTextureDimension2D 0%nat ∅ [] [CallConfigure None].

(** [async function main()], up to and including the initial [render()].
    [renderBindGroup] is declared without a value and first assigned by
    [updateBindGroups]; until then the state holds the handle [0] for it. *)
Definition main (d0 : Device) : State :=
  let cw := clamp_dimension d0 width in
  let ch := clamp_dimension d0 height in
  let textureSize := (cw, ch) in
  let (cs, d) := createComputeShader textureSize d0 in
  let (rp, d) := createRenderPipeline d in
  let (smp, d) := createSampler d in
  let s := mkState d cw ch None textureSize cs rp smp 0%nat in
  let s := updateBindGroups s in
  render s.

(** The states the program goes through: the one [main] leaves (it ends by
    registering the observer and rendering once), and the ones the resize
    callback leaves, entry after entry. *)
Inductive reachable : State -> Prop :=
| reachable_main maxTextureDimension2D :
    reachable (main (fresh_device maxTextureDimension2D))
| reachable_resize entry s :
    reachable s -> reachable (on_resize_entry entry s).

End Host.

(** ** Vocabulary of the statements *)

Section Vocabulary.
Local Open Scope f32_scope.

(** [x] lies in the open interval [(tMin, tMax)]. *)
Definition in_open_interval (tMin tMax x : f32) : bool :=
  (tMin <? x) && (x <? tMax).

(** What an intersection test answers: a miss, or the accepted root. *)
Inductive Outcome : Type := Miss | Accept (root : f32).

Definition hit_outcome (rec : HitRecord) : Outcome :=
  if rec_hit rec then Accept (rec_t rec) else Miss.

(** The root selection in the words of the specification: no hit on a
    negative discriminant; else the smaller root if it lies in the open
    interval; else the larger root if that does; else no hit. *)
Definition hitSphere_spec (sphere : Sphere) (r : Ray) (tMin tMax : f32)
  : Outcome :=
  if hs_discriminant sphere r <? f0_0 then Miss
  else if in_open_interval tMin tMax (hs_root1 sphere r)
       then Accept (hs_root1 sphere r)
  else if in_open_interval tMin tMax (hs_root2 sphere r)
       then Accept (hs_root2 sphere r)
  else Miss.

(** The colour a miss is shaded with. *)
Definition gradient (ray : Ray) : vec3 :=
  let unit_direction := V3.normalize (direction ray) in
  let a := f0_5 * (vy unit_direction + f1_0) in
  (white *^ (f1_0 - a) + skyBlue *^ a)%v3.

(** The unnormalised camera direction of a pixel. *)
Definition camera_direction (dims : vec2 u32) (uv : vec2 f32) : vec3 :=
  Vec3 (v2x uv * (f32_of_u32 (v2x dims) / f32_of_u32 (v2y dims)))
       (v2y uv) fm1_0.

(** The texel of a pixel as a function of the dimensions and the
    coordinates alone. *)
Definition pixel_texel (dims coords : vec2 u32) : vec4 :=
  let c := rayColor (mkRay (Vec3 f0_0 f0_0 f0_0)
                           (V3.normalize
                              (camera_direction dims (pixel_uv dims coords)))) in
  Vec4 (vx c) (vy c) (vz c) f1_0.

End Vocabulary.

(** The texel of the texture at the pixel [(x, y)]. *)
Definition texel_at (output : Texture) (x y : u32) : option vec4 :=
  tex_texels output !! (i32_of_u32 x, i32_of_u32 y).

(** Equality of two [f32] values up to the sign of a zero. *)
Definition unsign_zero (x : f32) : f32 :=
  match x with S754_zero _ => S754_zero false | _ => x end.

Definition zsim (x y : f32) : Prop := unsign_zero x = unsign_zero y.

(** The invocation [id] falls on a pixel of the image. *)
Definition in_bounds (dims : vec2 u32) (id : uvec3) : bool :=
  (idx id <? v2x dims)%N && (idy id <? v2y dims)%N.

(** The invocation [id] is the one of the pixel [(x, y)]. *)
Definition at_pixel (x y : u32) (id : uvec3) : bool :=
  (idx id =? x)%N && (idy id =? y)%N.

(** The invocations of a frame: the host dispatches
    [Math.ceil(width / 8)] by [Math.ceil(height / 8)] workgroups. *)
Definition frame_grid (dims : vec2 u32) : list uvec3 :=
  grid_ids (Z.to_N (Host.ceil_div8 (Z.of_N (v2x dims))))
           (Z.to_N (Host.ceil_div8 (Z.of_N (v2y dims)))).

(** Whether a call destroys a texture. *)
Definition is_destroy (c : Gpu.Call) : bool :=
  match c with Gpu.CallDestroy _ => true | _ => false end.

(** The size the specification asks a resize to establish: the requested
    size, each side clamped to [[1, deviceMaxDimension]]. *)
Definition requested_size_spec (d : Gpu.Device)
           (entry : Host.ResizeObserverEntry) : Z * Z :=
  (Host.clamp_dimension d (Host.contentRect_width entry),
   Host.clamp_dimension d (Host.contentRect_height entry)).

(** Every object of the device lies under a handle that was handed out. *)
Definition handles_below (d : Gpu.Device) : Prop :=
  forall h o, Gpu.objects d !! h = Some o -> (h < Gpu.next_handle d)%nat.

(** The dimensions are [u32] values. *)
Definition u32_dims (dims : vec2 u32) : Prop :=
  (v2x dims < 2 ^ 32)%N /\ (v2y dims < 2 ^ 32)%N.

(** [u32(z)] for an [i32]: the conversion back, again by the bit pattern. *)
Definition u32_of_i32 (z : Z) : u32 := Z.to_N (z mod 2 ^ 32).

(** The key [k] is the coordinate of a pixel of the image. *)
Definition pixel_key (dims : vec2 u32) (k : Z * Z) : Prop :=
  exists x y : u32, (x < v2x dims)%N /\ (y < v2y dims)%N
                    /\ k = (i32_of_u32 x, i32_of_u32 y).

Definition is_pixel_key (dims : vec2 u32) (k : Z * Z) : bool :=
  (- 2 ^ 31 <=? k.1) && (k.1 <? 2 ^ 31) && (- 2 ^ 31 <=? k.2) && (k.2 <? 2 ^ 31)
  && (u32_of_i32 k.1 <? v2x dims)%N && (u32_of_i32 k.2 <? v2y dims)%N.

(** The value [x] carries the sign [s] (true for minus), or is NaN. *)
Definition sign_or_nan (s : bool) (x : f32) : Prop :=
  match x with
  | S754_nan => True
  | S754_zero s' | S754_infinity s' | S754_finite s' _ _ => s' = s
  end.

(** Every texel of the texture has alpha 1. *)
Definition opaque_texels (output : Texture) : Prop :=
  map_Forall (fun _ v => ww v = f1_0) (tex_texels output).

(** The resources of the host fit together: the surface, [textureSize] and
    the image the manager refers to have one size, the clamped base size;
    the kernel's bind group binds that image to the kernel's pipeline; the
    presentation bind group binds the sampler and that same image to the
    presentation pipeline; and the last frame submitted is the one these
    resources give. *)
Definition resources_consistent (s : Host.State) : Prop :=
  let d := Host.device s in
  let cs := Host.computeShader s in
  (Host.canvas_width s, Host.canvas_height s) = Host.textureSize s
  /\ Host.textureSize s
     = (Host.clamp_dimension d Host.width, Host.clamp_dimension d Host.height)
  /\ Gpu.objects d !! Host.texture cs
     = Some (Gpu.GPUTexture (fst (Host.textureSize s))
                            (snd (Host.textureSize s)) false)
  /\ Gpu.objects d !! Host.bindGroup cs
     = Some (Gpu.GPUBindGroup (Host.pipeline cs)
               [(0%nat, Gpu.ResTextureView (Host.texture cs))])
  /\ (exists m, Gpu.objects d !! Host.pipeline cs
                = Some (Gpu.GPUComputePipeline m)
                /\ Gpu.objects d !! m
                   = Some (Gpu.GPUShaderModule Gpu.ComputeShaderCode))
  /\ Gpu.objects d !! Host.renderBindGroup s
     = Some (Gpu.GPUBindGroup (Host.renderPipeline s)
               [(0%nat, Gpu.ResSampler (Host.sampler s));
                (1%nat, Gpu.ResTextureView (Host.texture cs))])
  /\ Gpu.objects d !! Host.sampler s = Some Gpu.GPUSampler
  /\ (exists m, Gpu.objects d !! Host.renderPipeline s
                = Some (Gpu.GPURenderPipeline m)
                /\ Gpu.objects d !! m
                   = Some (Gpu.GPUShaderModule Gpu.RenderShaderCode))
  /\ last (Gpu.queue d) = Some (Host.frame_commands s).

(** A submitted frame fits the image it works on: its compute pass runs
    [ceil(w/8)] by [ceil(h/8)] workgroups with a bind group on an existing
    image of [w] by [h], and its render pass draws the four vertices of the
    quad on a target of that size with a bind group on the same image. *)
Definition frame_ok (d : Gpu.Device) (cb : Gpu.CommandBuffer) : Prop :=
  exists p bg rp rbg tex smp w h,
    cb = [ Gpu.ComputePass p bg (Host.ceil_div8 w, Host.ceil_div8 h);
           Gpu.RenderPass (w, h) rp rbg 4 ]
    /\ Gpu.objects d !! tex = Some (Gpu.GPUTexture w h false)
    /\ Gpu.objects d !! bg
       = Some (Gpu.GPUBindGroup p [(0%nat, Gpu.ResTextureView tex)])
    /\ Gpu.objects d !! rbg
       = Some (Gpu.GPUBindGroup rp [(0%nat, Gpu.ResSampler smp);
                                    (1%nat, Gpu.ResTextureView tex)]).

(** ** Inputs at which the program is evaluated below *)

(** The ray from the origin along [(0, 0, -1)], towards the sphere. *)
Definition ray_forward : Ray :=
  mkRay (Vec3 f0_0 f0_0 f0_0) (Vec3 f0_0 f0_0 fm1_0).

(** The rays from the origin straight down and straight up. *)
Definition ray_down : Ray := mkRay (Vec3 f0_0 f0_0 f0_0) (Vec3 f0_0 fm1_0 f0_0).
Definition ray_up : Ray := mkRay (Vec3 f0_0 f0_0 f0_0) (Vec3 f0_0 f1_0 f0_0).

(** Storage textures without texels yet: [2 x 2], and [401 x 225], whose
    sides are no multiples of the workgroup size. *)
Definition tex_2x2 : Texture := mkTexture (Vec2 2%N 2%N) ∅.
Definition tex_401x225 : Texture := mkTexture (Vec2 401%N 225%N) ∅.

(** The same texture with a texel left by an earlier frame. *)
Definition tex_2x2_used : Texture :=
  mkTexture (Vec2 2%N 2%N) {[ (0, 0) := Vec4 f0_0 f0_0 f0_0 f1_0 ]}.

(** The host after [main] on a device whose largest texture side is 8192,
    and after one resize notification that asks for [800 x 600]. *)
Definition host_started : Host.State := Host.main (Host.fresh_device 8192).
Definition entry_800x600 : Host.ResizeObserverEntry := Host.mkEntry 800 600.
Definition host_resized : Host.State :=
  Host.on_resize [entry_800x600] host_started.

(** A ray whose direction has length zero. *)
Definition ray_degenerate : Ray :=
  mkRay (Vec3 f0_0 f0_0 f0_0) (Vec3 f0_0 f0_0 f0_0).

(** A ray with a large finite direction, and a normal against which the
    products of [dot] overflow to opposite infinities. *)
Definition f2p127 : f32 := F32.of_Z (2 ^ 127).
Definition ray_huge : Ray :=
  mkRay (Vec3 f0_0 f0_0 f0_0) (Vec3 f2p127 f2p127 f0_0).
Definition normal_skew : vec3 := Vec3 f2_0 (- f2_0)%f32 f0_0.

(** * Properties *)

(** ** The constants of the program *)

(** The literals are the binary32 numbers one expects: [0.5 = 2^23 * 2^-24],
    [0.7] is the bit pattern [0x3F333333], [-1.0] and [10000.0] are exact. *)
Example literals_binary32 :
  f0_5 = S754_finite false 8388608 (-24)
  /\ f0_7 = S754_finite false 11744051 (-24)
  /\ fm1_0 = S754_finite true 8388608 (-23)
  /\ f10000_0 = S754_finite false 10240000 (-10)
  /\ f0_0 = S754_zero false.
Proof. vm_compute. repeat split. Qed.

(** The numbers the statements below are evaluated at are binary32 values. *)
Example inputs_valid :
  forallb F32.valid [f0_0; f0_5; f0_7; f1_0; fm1_0; f2_0; f10000_0; f2p127]
  = true.
Proof. vm_compute. reflexivity. Qed.

(** [Math.floor(400 / (16.0 / 9.0))] is 225: the quotient is exact in
    binary64. *)
Example host_height : Host.width = 400 /\ Host.height = 225.
Proof. vm_compute. split; reflexivity. Qed.

(** The clamp yields a side of at least 1 that does not exceed the device
    limit (when that is at least 1). *)
Lemma clamp_dimension_range d n :
  1 <= Host.clamp_dimension d n
  <= Z.max 1 (Gpu.limits_maxTextureDimension2D d).
Proof. unfold Host.clamp_dimension. lia. Qed.

(** ** Facts of the arithmetic *)

Section FloatFacts.
Variables prec emax : Z.

Lemma SFcompare_antisym x y :
  SFcompare y x = option_map CompOpp (SFcompare x y).
Proof.
  destruct x as [sx|sx| |sx mx ex], y as [sy|sy| |sy my ey]; cbn;
    try reflexivity; try (destruct sx; reflexivity);
    try (destruct sy; reflexivity); try (destruct sx, sy; reflexivity).
  destruct sx, sy; cbn; try reflexivity;
    rewrite (Z.compare_antisym ex ey); destruct (ex ?= ey); cbn;
    try reflexivity;
    change (Pos.compare_cont Eq my mx)
      with (Pos.compare_cont (CompOpp Eq) my mx);
    rewrite <- (Pos.compare_cont_antisym mx my Eq);
    destruct (Pos.compare_cont Eq mx my); reflexivity.
Qed.

Lemma SFcompare_defined x y :
  x <> S754_nan -> y <> S754_nan -> SFcompare x y <> None.
Proof. destruct x, y; cbn; congruence. Qed.

Lemma SFltb_SFleb x y : SFltb x y = true -> SFleb x y = true.
Proof. unfold SFltb, SFleb. destruct (SFcompare x y) as [[]|]; congruence. Qed.

Lemma SFleb_negb_SFltb x y :
  x <> S754_nan -> y <> S754_nan -> SFleb x y = negb (SFltb y x).
Proof.
  intros Hx Hy. pose proof (SFcompare_defined x y Hx Hy) as Hc.
  unfold SFltb, SFleb. rewrite (SFcompare_antisym x y).
  destruct (SFcompare x y) as [[]|]; cbn; congruence.
Qed.

(** Rounding acts on the magnitude: the sign passes through. *)
Lemma binary_round_aux_opp s m e l :
  binary_round_aux prec emax (negb s) m e l
  = SFopp (binary_round_aux prec emax s m e l).
Proof.
  unfold binary_round_aux.
  destruct (shr_fexp prec emax m e l) as [mrs' e'].
  destruct (shr_fexp prec emax _ e' loc_Exact) as [mrs'' e''].
  destruct (shr_m mrs''); cbn; try reflexivity.
  destruct (e'' <=? emax - prec); reflexivity.
Qed.

Lemma SFmul_opp_r x y :
  SFmul prec emax x (SFopp y) = SFopp (SFmul prec emax x y).
Proof.
  destruct x as [sx|sx| |sx mx ex], y as [sy|sy| |sy my ey]; cbn;
    try reflexivity; try (destruct sx, sy; reflexivity).
  rewrite <- negb_xorb_r. apply binary_round_aux_opp.
Qed.

Lemma binary_normalize_opp m e :
  zsim (binary_normalize prec emax (- m) e false)
       (SFopp (binary_normalize prec emax m e false)).
Proof.
  unfold zsim.
  destruct m as [|p|p]; unfold binary_normalize, Z.opp; [reflexivity| |];
    unfold binary_round; destruct (shl_align p e _) as [mz ez]; f_equal.
  - apply (binary_round_aux_opp false).
  - rewrite (binary_round_aux_opp false).
    destruct (binary_round_aux prec emax false (Z.pos mz) ez loc_Exact)
      as [[]|[]| |[] ? ?]; reflexivity.
Qed.

Lemma cond_Zopp_negb s m : cond_Zopp (negb s) m = - cond_Zopp s m.
Proof. destruct s; cbn; lia. Qed.

(** The sum of the opposites is the opposite of the sum, except that an
    exact cancellation gives [+0] both times. *)
Lemma SFadd_opp x y :
  zsim (SFadd prec emax (SFopp x) (SFopp y)) (SFopp (SFadd prec emax x y)).
Proof.
  destruct x as [sx|sx| |sx mx ex], y as [sy|sy| |sy my ey];
    try reflexivity; try (destruct sx, sy; reflexivity).
  cbn [SFadd SFopp]. rewrite !cond_Zopp_negb, <- Z.opp_add_distr.
  apply binary_normalize_opp.
Qed.

Lemma SFadd_zsim_l x x' y :
  zsim x x' -> zsim (SFadd prec emax x y) (SFadd prec emax x' y).
Proof.
  unfold zsim.
  destruct x as [sx|sx| |sx mx ex], x' as [sx'|sx'| |sx' mx' ex'];
    cbn [unsign_zero]; intros E; try discriminate;
    try (rewrite E; reflexivity); try reflexivity.
  destruct y as [sy|sy| |sy my ey]; try reflexivity.
  destruct sx, sx', sy; reflexivity.
Qed.

Lemma SFcompare_zsim_l x x' y : zsim x x' -> SFcompare x y = SFcompare x' y.
Proof.
  unfold zsim.
  destruct x as [sx|sx| |sx mx ex], x' as [sx'|sx'| |sx' mx' ex'];
    cbn [unsign_zero]; intros E; try discriminate;
    try (rewrite E; reflexivity); reflexivity.
Qed.

Lemma SFleb_opp_zero x s :
  x <> S754_nan -> SFltb x (S754_zero s) = false ->
  SFleb (SFopp x) (S754_zero s) = true.
Proof.
  unfold SFltb, SFleb.
  destruct x as [sx|sx| |sx mx ex]; cbn; try reflexivity; try congruence;
    destruct sx; cbn; congruence.
Qed.

End FloatFacts.

Lemma is_nan_false (x : f32) : F32.is_nan x = false -> x <> S754_nan.
Proof. destruct x; cbn; congruence. Qed.

Lemma zsim_trans (x y z : f32) : zsim x y -> zsim y z -> zsim x z.
Proof. unfold zsim; congruence. Qed.

(** [dot] against the negated vector is the negated [dot], up to the sign of
    a zero. *)
Lemma dot_neg_r (a b : vec3) : zsim (V3.dot a (- b)%v3) (- V3.dot a b)%f32.
Proof.
  unfold V3.dot, V3.neg, F32.add, F32.mul, F32.neg; cbn [vx vy vz].
  rewrite !SFmul_opp_r.
  eapply zsim_trans; [apply SFadd_zsim_l, SFadd_opp | apply SFadd_opp].
Qed.

(** ** The intersection test *)

Section Intersection.
Local Open Scope f32_scope.

Lemma hit_outcome_accept sphere r root :
  hit_outcome (hs_accept sphere r root) = Accept root.
Proof. reflexivity. Qed.

(** A record that reports a miss is the zero-initialised record. *)
Lemma hit_sphere_miss_zero sphere r tMin tMax :
  rec_hit (hit_sphere sphere r tMin tMax) = false ->
  hit_sphere sphere r tMin tMax = zero_HitRecord.
Proof.
  unfold hit_sphere.
  repeat match goal with |- context [if ?b then _ else _] => destruct b end;
    cbn; congruence.
Qed.

(** The rejection test of the code is the complement of the open interval
    when the three values compare. *)
Lemma reject_iff_outside tMin tMax x :
  F32.is_nan tMin = false -> F32.is_nan tMax = false -> F32.is_nan x = false ->
  (x <=? tMin) || (tMax <=? x) = negb (in_open_interval tMin tMax x).
Proof.
  intros Hmin Hmax Hx. unfold in_open_interval, F32.leb, F32.ltb.
  rewrite (SFleb_negb_SFltb x tMin), (SFleb_negb_SFltb tMax x)
    by auto using is_nan_false.
  now rewrite negb_andb.
Qed.

(** C1, as stated, fails at a ray of zero length: [a = 0] and [h = 0] give
    the root [0/0 = NaN], which lies in no interval, yet fails both
    rejection tests and is accepted. *)
Lemma hit_sphere_accepts_nan_root :
  hit_outcome (hit_sphere scene_sphere ray_degenerate f0_0 f10000_0)
    = Accept S754_nan
  /\ hitSphere_spec scene_sphere ray_degenerate f0_0 f10000_0 = Miss
  /\ hit_outcome (hit_sphere scene_sphere ray_degenerate f0_0 f10000_0)
     <> hitSphere_spec scene_sphere ray_degenerate f0_0 f10000_0.
Proof. vm_compute. repeat split; discriminate. Qed.

(** C1 (amended): [hit_sphere] reports no hit when the discriminant is
    negative; otherwise, provided the bounds and the roots it tests are not
    NaN, it accepts the smaller root if that lies in the open interval
    [(tMin, tMax)], else the larger root if that does, and reports no hit if
    both fall outside. *)
Theorem hit_sphere_root_choice sphere r tMin tMax :
  ((hs_discriminant sphere r <? f0_0) = false ->
     F32.is_nan tMin = false /\ F32.is_nan tMax = false /\
     F32.is_nan (hs_root1 sphere r) = false /\
     (in_open_interval tMin tMax (hs_root1 sphere r) = false ->
      F32.is_nan (hs_root2 sphere r) = false)) ->
  hit_outcome (hit_sphere sphere r tMin tMax)
  = hitSphere_spec sphere r tMin tMax.
Proof.
  intros H. unfold hit_sphere, hitSphere_spec.
  destruct (hs_discriminant sphere r <? f0_0); [reflexivity|].
  destruct H as (Hmin & Hmax & H1 & H2); [reflexivity|].
  rewrite (reject_iff_outside tMin tMax (hs_root1 sphere r)) by assumption.
  destruct (in_open_interval tMin tMax (hs_root1 sphere r)); cbn [negb].
  - apply hit_outcome_accept.
  - rewrite (reject_iff_outside tMin tMax (hs_root2 sphere r)) by auto.
    destruct (in_open_interval tMin tMax (hs_root2 sphere r)); cbn [negb].
    + apply hit_outcome_accept.
    + reflexivity.
Qed.

Lemma hit_sphere_root_choice_witness :
  hit_outcome (hit_sphere scene_sphere ray_forward f0_0 f10000_0)
  = hitSphere_spec scene_sphere ray_forward f0_0 f10000_0.
Proof.
  apply (hit_sphere_root_choice scene_sphere ray_forward f0_0 f10000_0).
  intros _. vm_compute. repeat split; intros; reflexivity.
Defined.

(** C2, as stated, fails when [dot(direction, outwardNormal)] is NaN: the
    test [< 0.0] is false, the normal is negated, and the [dot] with the
    negated normal is NaN again, which is not [<= 0]. *)
Lemma setFaceNormal_nan_not_front_facing :
  let rec := zero_HitRecord in
  let fr := setFaceNormal rec ray_huge normal_skew in
  V3.dot (direction ray_huge) normal_skew = S754_nan
  /\ fnr_front_face fr = false
  /\ (V3.dot (direction ray_huge) (fnr_normal fr) <=? f0_0) = false.
Proof. vm_compute. repeat split. Qed.

(** C2 (amended): for every ray and every outward normal, [setFaceNormal]
    returns [frontFace = (dot(direction, outwardNormal) < 0)], the normal
    unchanged when [frontFace] is true and negated otherwise; and whenever
    [dot(direction, outwardNormal)] is not NaN the returned normal satisfies
    [dot(direction, normal) <= 0]. *)
Theorem setFaceNormal_front_facing rec r outwardNormal :
  let fr := setFaceNormal rec r outwardNormal in
  fnr_front_face fr = (V3.dot (direction r) outwardNormal <? f0_0)
  /\ fnr_normal fr
     = (if fnr_front_face fr then outwardNormal else (- outwardNormal)%v3)
  /\ (F32.is_nan (V3.dot (direction r) outwardNormal) = false ->
      (V3.dot (direction r) (fnr_normal fr) <=? f0_0) = true).
Proof.
  unfold setFaceNormal. cbv zeta.
  destruct (V3.dot (direction r) outwardNormal <? f0_0) eqn:Hlt;
    cbn [fnr_front_face fnr_normal];
    (split; [reflexivity|]); (split; [reflexivity|]); intros Hnan.
  - now apply SFltb_SFleb.
  - unfold F32.leb, SFleb.
    rewrite (SFcompare_zsim_l _ _ f0_0 (dot_neg_r (direction r) outwardNormal)).
    apply (SFleb_opp_zero _ false); [now apply is_nan_false | exact Hlt].
Qed.

Lemma setFaceNormal_front_facing_witness :
  let n := Vec3 f0_0 f0_0 fm1_0 in
  let fr := setFaceNormal zero_HitRecord ray_forward n in
  fnr_front_face fr = false
  /\ (V3.dot (direction ray_forward) (fnr_normal fr) <=? f0_0) = true
  /\ fnr_front_face (setFaceNormal zero_HitRecord ray_huge normal_skew)
     = (V3.dot (direction ray_huge) normal_skew <? f0_0).
Proof.
  destruct (setFaceNormal_front_facing zero_HitRecord ray_forward
              (Vec3 f0_0 f0_0 fm1_0)) as (Hff & _ & Hle).
  destruct (setFaceNormal_front_facing zero_HitRecord ray_huge normal_skew)
    as (Hnan & _ & _).
  split; [exact Hff | split; [apply Hle; reflexivity | exact Hnan]].
Defined.

End Intersection.

(** ** The shading function *)

Section Shading.
Local Open Scope f32_scope.

(** On a record whose [t] is not positive the shading is the gradient. *)
Lemma shade_gradient ray rec :
  (rec_t rec >? f0_0) = false -> shade ray rec = gradient ray.
Proof. intros H. unfold shade. rewrite H. reflexivity. Qed.

(** The shading reads one field of the record: [t]. *)
Lemma shade_depends_on_t_only ray rec rec' :
  rec_t rec = rec_t rec' -> shade ray rec = shade ray rec'.
Proof. intros H. unfold shade. rewrite H. reflexivity. Qed.

Lemma hit_sphere_miss_t sphere r tMin tMax :
  rec_hit (hit_sphere sphere r tMin tMax) = false ->
  rec_t (hit_sphere sphere r tMin tMax) = f0_0.
Proof. intros H. now rewrite (hit_sphere_miss_zero _ _ _ _ H). Qed.

(** C3, as stated, fails in its last part: the colour of the ray along
    [(0, 0, -1)] is not [(1, 1, 0.5)]. *)
Lemma rayColor_forward_not_1_1_half :
  rayColor ray_forward <> Vec3 f1_0 f1_0 f0_5.
Proof. vm_compute. discriminate. Qed.

(** C3 (amended): for the ray with origin [(0,0,0)] and direction
    [(0,0,-1)], [hit_sphere] against the sphere of centre [(0,0,-1)] and
    radius [0.5] accepts the root [t = 0.5], and [rayColor] returns
    [0.5 * (normal + 1)] with [normal = (0,0,1)], which is
    [(0.5, 0.5, 1.0)]. *)
Theorem rayColor_forward :
  let rec := hit_sphere scene_sphere ray_forward f0_0 f10000_0 in
  let normal := Vec3 f0_0 f0_0 f1_0 in
  hit_outcome rec = Accept f0_5
  /\ rec_normal rec = normal
  /\ V3.normalize (rayAt ray_forward (rec_t rec) - center scene_sphere)%v3
     = normal
  /\ rayColor ray_forward
     = (f0_5 ^* Vec3 (vx normal + f1_0) (vy normal + f1_0) (vz normal + f1_0))%v3
  /\ rayColor ray_forward = Vec3 f0_5 f0_5 f1_0.
Proof. vm_compute. repeat split. Qed.

(** C4, as stated, fails: the shading decides between its two branches by
    reading [t], whatever the [hit] flag says.  For the ray straight up the
    test reports a miss; with another [t] in that record, and [hit] still
    false, the shading returns another colour. *)
Lemma shade_reads_t_of_a_miss :
  let rec := hit_sphere scene_sphere ray_up f0_0 f10000_0 in
  let rec' := mkHitRecord (rec_p rec) (rec_normal rec) f1_0
                          (rec_hit rec) (rec_front_face rec) in
  rec_hit rec = false /\ rec_hit rec' = false
  /\ shade ray_up rec' <> shade ray_up rec.
Proof. vm_compute. repeat split. discriminate. Qed.

(** C4 (amended): the shading stage never consults the [hit], [p],
    [normal] or [front_face] field of a HitRecord, whatever the record: it
    decides by the test [rec.t > 0.0] alone, and two records with the same
    [t] are shaded alike.  When [hit_sphere] reports a miss the returned
    record carries the zero-initialised [t = 0], the test fails on it, and
    [rayColor] returns the gradient, the same whatever the other fields
    hold. *)
Theorem shade_of_miss_reads_t_only
        ray t p normal hit front_face p' normal' hit' front_face' :
  shade ray (mkHitRecord p normal t hit front_face)
  = shade ray (mkHitRecord p' normal' t hit' front_face')
  /\ (rec_hit (hit_sphere scene_sphere ray f0_0 f10000_0) = false ->
      let rec := hit_sphere scene_sphere ray f0_0 f10000_0 in
      rec_t rec = f0_0
      /\ shade ray (mkHitRecord p' normal' (rec_t rec) hit' front_face')
         = rayColor ray
      /\ rayColor ray = gradient ray).
Proof.
  split; [now apply shade_depends_on_t_only|].
  intros Hmiss rec. split; [|split].
  - now apply hit_sphere_miss_t.
  - now apply shade_depends_on_t_only.
  - apply shade_gradient. unfold rec.
    now rewrite (hit_sphere_miss_t _ _ _ _ Hmiss).
Qed.

Lemma shade_of_miss_reads_t_only_witness :
  shade ray_up (mkHitRecord zero_vec3 zero_vec3 f1_0 false false)
  = shade ray_up (mkHitRecord white white f1_0 true true)
  /\ shade ray_up (mkHitRecord white white f0_0 true true) = rayColor ray_up
  /\ rayColor ray_up = gradient ray_up.
Proof.
  destruct (shade_of_miss_reads_t_only ray_up f1_0 zero_vec3 zero_vec3 false
              false white white true true) as (Hany & Hmiss).
  destruct (Hmiss eq_refl) as (_ & Hs & Hg).
  split; [exact Hany | split; [exact Hs | exact Hg]].
Defined.

(** The two ends of the blend. *)
Lemma gradient_bottom ray :
  vy (V3.normalize (direction ray)) = fm1_0 -> gradient ray = white.
Proof. intros H. unfold gradient. rewrite H. reflexivity. Qed.

Lemma gradient_top ray :
  vy (V3.normalize (direction ray)) = f1_0 -> gradient ray = skyBlue.
Proof. intros H. unfold gradient. rewrite H. reflexivity. Qed.

(** C7: for every ray that misses the sphere, [rayColor] returns the blend
    [white*(1-a) + skyBlue*a] with [a = 0.5*(unit_direction.y + 1.0)]; a
    normalised direction with [y = -1] yields exactly white [(1,1,1)], and
    one with [y = 1] exactly [(0.5, 0.7, 1.0)]. *)
Theorem rayColor_miss_gradient ray :
  rec_hit (hit_sphere scene_sphere ray f0_0 f10000_0) = false ->
  let unit_direction := V3.normalize (direction ray) in
  let a := f0_5 * (vy unit_direction + f1_0) in
  rayColor ray = (white *^ (f1_0 - a) + skyBlue *^ a)%v3
  /\ (vy unit_direction = fm1_0 -> rayColor ray = Vec3 f1_0 f1_0 f1_0)
  /\ (vy unit_direction = f1_0 -> rayColor ray = Vec3 f0_5 f0_7 f1_0).
Proof.
  intros Hmiss ud a.
  assert (Hg : rayColor ray = gradient ray).
  { apply shade_gradient. now rewrite (hit_sphere_miss_t _ _ _ _ Hmiss). }
  rewrite Hg. split; [reflexivity|split]; intros Hy.
  - now apply gradient_bottom.
  - now apply gradient_top.
Qed.

Lemma rayColor_miss_gradient_witness :
  rayColor ray_down = Vec3 f1_0 f1_0 f1_0
  /\ rayColor ray_up = Vec3 f0_5 f0_7 f1_0.
Proof.
  destruct (rayColor_miss_gradient ray_down eq_refl) as (_ & Hd & _).
  destruct (rayColor_miss_gradient ray_up eq_refl) as (_ & _ & Hu).
  split; [apply Hd | apply Hu]; reflexivity.
Defined.

End Shading.

(** ** The kernel *)

Section KernelFacts.

Lemma ceil_div8_eq n : Host.ceil_div8 n = - ((- n) / 8).
Proof.
  unfold Host.ceil_div8, Qceiling, Qfloor. cbn.
  rewrite Z.mul_1_r. reflexivity.
Qed.

(** The workgroups of a dispatch cover the side they are computed from. *)
Lemma ceil_div8_covers n : n <= 8 * Host.ceil_div8 n.
Proof.
  rewrite ceil_div8_eq.
  pose proof (Z.div_mod (- n) 8). pose proof (Z.mod_pos_bound (- n) 8). lia.
Qed.

Lemma i32_of_u32_inj (x y : u32) :
  (x < 2 ^ 32)%N -> (y < 2 ^ 32)%N -> i32_of_u32 x = i32_of_u32 y -> x = y.
Proof.
  intros Hx Hy. unfold i32_of_u32.
  assert (Hx' : 0 <= Z.of_N x < 2 ^ 32)
    by (change (2 ^ 32) with (Z.of_N (2 ^ 32)%N); lia).
  assert (Hy' : 0 <= Z.of_N y < 2 ^ 32)
    by (change (2 ^ 32) with (Z.of_N (2 ^ 32)%N); lia).
  rewrite !Z.mod_small by assumption.
  destruct (Z.of_N x <? 2 ^ 31), (Z.of_N y <? 2 ^ 31); lia.
Qed.

Lemma elem_of_grid_ids gx gy id :
  id ∈ grid_ids gx gy <->
  (idx id < workgroup_size * gx)%N /\ (idy id < workgroup_size * gy)%N
  /\ idz id = 0%N.
Proof.
  unfold grid_ids. rewrite list_elem_of_bind. split.
  - intros (y & Hy & Hys). apply list_elem_of_bind in Hy as (x & Hx & Hxs).
    apply list_elem_of_singleton in Hx. subst id. cbn.
    apply elem_of_seq in Hys. apply elem_of_seq in Hxs. lia.
  - intros (Hx & Hy & Hz). exists (N.to_nat (idy id)). split.
    + apply list_elem_of_bind. exists (N.to_nat (idx id)). split.
      * destruct id as [a b c]; cbn in *. subst c. rewrite !N2Nat.id.
        apply list_elem_of_singleton; reflexivity.
      * apply elem_of_seq. lia.
    + apply elem_of_seq. lia.
Qed.

(** Every pixel of the image has its invocation in the frame's dispatch. *)
Lemma frame_grid_covers dims x y :
  (x < v2x dims)%N -> (y < v2y dims)%N -> UVec3 x y 0%N ∈ frame_grid dims.
Proof.
  intros Hx Hy. apply elem_of_grid_ids. cbn [idx idy idz].
  pose proof (ceil_div8_covers (Z.of_N (v2x dims))).
  pose proof (ceil_div8_covers (Z.of_N (v2y dims))).
  unfold workgroup_size. cbv [u32] in *.
  set (gx := Host.ceil_div8 (Z.of_N (v2x dims))) in *.
  set (gy := Host.ceil_div8 (Z.of_N (v2y dims))) in *.
  lia.
Qed.

(** One invocation, by what it writes. *)
Lemma main_writes output id :
  main output id
  = if in_bounds (tex_dims output) id
    then textureStore output
           (Vec2 (i32_of_u32 (idx id)) (i32_of_u32 (idy id)))
           (pixel_texel (tex_dims output) (Vec2 (idx id) (idy id)))
    else output.
Proof.
  unfold main, in_bounds, textureDimensions. cbn [v2x v2y].
  rewrite !N.leb_antisym, <- negb_andb.
  destruct (_ && _)%bool; reflexivity.
Qed.

Lemma main_dims output id : tex_dims (main output id) = tex_dims output.
Proof. rewrite main_writes. destruct (in_bounds _ _); reflexivity. Qed.

Lemma main_texel_at output id x y :
  u32_dims (tex_dims output) ->
  (x < v2x (tex_dims output))%N -> (y < v2y (tex_dims output))%N ->
  texel_at (main output id) x y
  = if at_pixel x y id then Some (pixel_texel (tex_dims output) (Vec2 x y))
    else texel_at output x y.
Proof.
  intros [Hw Hh] Hx Hy. rewrite main_writes. unfold in_bounds, at_pixel.
  destruct (idx id <? v2x (tex_dims output))%N eqn:Bx;
    [destruct (idy id <? v2y (tex_dims output))%N eqn:By|]; cbn [andb].
  - apply N.ltb_lt in Bx. apply N.ltb_lt in By.
    unfold texel_at, textureStore; cbn [tex_texels v2x v2y].
    destruct (idx id =? x)%N eqn:Ex; [destruct (idy id =? y)%N eqn:Ey|];
      cbn [andb].
    + apply N.eqb_eq in Ex. apply N.eqb_eq in Ey. subst.
      apply lookup_insert_eq.
    + apply N.eqb_neq in Ey. apply lookup_insert_ne.
      intros E. inversion E as [[E1 E2]].
      apply i32_of_u32_inj in E2; [congruence|lia|lia].
    + apply N.eqb_neq in Ex. apply lookup_insert_ne.
      intros E. inversion E as [[E1 E2]].
      apply i32_of_u32_inj in E1; [congruence|lia|lia].
  - apply N.ltb_ge in By.
    destruct (idy id =? y)%N eqn:Ey; [apply N.eqb_eq in Ey; lia|].
    now rewrite andb_false_r.
  - apply N.ltb_ge in Bx.
    destruct (idx id =? x)%N eqn:Ex; [apply N.eqb_eq in Ex; lia|].
    reflexivity.
Qed.

(** A run of invocations, in whatever order: a pixel holds the texel of its
    invocation if that ran, and what it held before otherwise. *)
Lemma run_texel_at ids output x y :
  u32_dims (tex_dims output) ->
  (x < v2x (tex_dims output))%N -> (y < v2y (tex_dims output))%N ->
  texel_at (run_invocations ids output) x y
  = if existsb (at_pixel x y) ids
    then Some (pixel_texel (tex_dims output) (Vec2 x y))
    else texel_at output x y.
Proof.
  revert output. induction ids as [|id ids IH]; intros output Hd Hx Hy;
    [reflexivity|].
  change (run_invocations (id :: ids) output)
    with (run_invocations ids (main output id)).
  rewrite IH by (rewrite main_dims; assumption).
  rewrite main_dims. cbn [existsb].
  destruct (existsb (at_pixel x y) ids); [now rewrite orb_true_r|].
  rewrite orb_false_r. now apply main_texel_at.
Qed.

Lemma existsb_at_pixel ids x y :
  UVec3 x y 0%N ∈ ids -> existsb (at_pixel x y) ids = true.
Proof.
  intros Hin. apply existsb_exists. exists (UVec3 x y 0%N). split.
  - now apply list_elem_of_In.
  - unfold at_pixel; cbn. now rewrite !N.eqb_refl.
Qed.

End KernelFacts.

Section KernelClaims.
Local Open Scope f32_scope.




(** C6: an invocation whose coordinate has [x >= width] or [y >= height]
    writes nothing: the texture after it is the texture before it, whatever
    the dimensions of the image. *)
Theorem main_outside_image_is_noop output id :
  (v2x (tex_dims output) <= idx id)%N \/ (v2y (tex_dims output) <= idy id)%N ->
  main output id = output.
Proof.
  intros H. rewrite main_writes. unfold in_bounds.
  destruct H as [H|H]; apply N.ltb_ge in H; rewrite H;
    [reflexivity | now rewrite andb_false_r].
Qed.

Lemma main_outside_image_is_noop_witness :
  main tex_401x225 (UVec3 401%N 0%N 0%N) = tex_401x225
  /\ main tex_401x225 (UVec3 0%N 225%N 0%N) = tex_401x225
  /\ main tex_401x225 (UVec3 407%N 231%N 0%N) = tex_401x225.
Proof.
  split; [|split].
  - apply (main_outside_image_is_noop tex_401x225 (UVec3 401%N 0%N 0%N)).
    left. vm_compute. discriminate.
  - apply (main_outside_image_is_noop tex_401x225 (UVec3 0%N 225%N 0%N)).
    right. vm_compute. discriminate.
  - apply (main_outside_image_is_noop tex_401x225 (UVec3 407%N 231%N 0%N)).
    left. vm_compute. discriminate.
Defined.

(** C10: the texel the kernel leaves at a pixel of the image is a function
    of the coordinates and of the dimensions alone.  Two executions of the
    frame's dispatch over the same dimensions, each running the invocations
    in an order of its own and each starting from texels of its own, leave
    the same texel at every pixel of the image: [pixel_texel dims (x, y)]. *)
Theorem kernel_is_deterministic dims texels1 texels2 ids1 ids2 x y :
  u32_dims dims ->
  ids1 ≡ₚ frame_grid dims -> ids2 ≡ₚ frame_grid dims ->
  (x < v2x dims)%N -> (y < v2y dims)%N ->
  texel_at (run_invocations ids1 (mkTexture dims texels1)) x y
  = Some (pixel_texel dims (Vec2 x y))
  /\ texel_at (run_invocations ids2 (mkTexture dims texels2)) x y
     = texel_at (run_invocations ids1 (mkTexture dims texels1)) x y.
Proof.
  intros Hd Hp1 Hp2 Hx Hy.
  assert (Hrun : forall ids texels, ids ≡ₚ frame_grid dims ->
            texel_at (run_invocations ids (mkTexture dims texels)) x y
            = Some (pixel_texel dims (Vec2 x y))).
  { intros ids texels Hp. rewrite run_texel_at by assumption.
    rewrite existsb_at_pixel; [reflexivity|].
    rewrite Hp. now apply frame_grid_covers. }
  rewrite !Hrun by assumption. split; reflexivity.
Qed.

Lemma kernel_is_deterministic_witness :
  texel_at (run_invocations (reverse (frame_grid (Vec2 2%N 2%N))) tex_2x2_used)
           0%N 0%N
  = texel_at (run_invocations (frame_grid (Vec2 2%N 2%N)) tex_2x2) 0%N 0%N.
Proof.
  apply (kernel_is_deterministic (Vec2 2%N 2%N) ∅
           {[ (0, 0) := Vec4 f0_0 f0_0 f0_0 f1_0 ]}
           (frame_grid (Vec2 2%N 2%N)) (reverse (frame_grid (Vec2 2%N 2%N)))
           0%N 0%N).
  - split; reflexivity.
  - reflexivity.
  - apply reverse_Permutation.
  - reflexivity.
  - reflexivity.
Defined.

End KernelClaims.

(** ** The host *)

Section HostClaims.
Import Gpu Host.

(** Looking up a handle in the objects after a row of [create] calls. *)
Ltac lookup_created :=
  repeat (rewrite lookup_insert_ne by lia);
  try rewrite lookup_insert_eq; reflexivity.

(** *** The objects of the device along a run *)

(** A texture that was destroyed exists no longer. *)
Lemma destroy_not_live d h : live_texture (snd (destroy h d)) h = false.
Proof.
  unfold live_texture, destroy. cbn [snd objects].
  destruct (objects d !! h) as [[| | |w ht b| |]|] eqn:E; rewrite ?E;
    try reflexivity.
  now rewrite lookup_insert_eq.
Qed.

Lemma insert_below (m : gmap handle GPUObject) n v :
  (forall h o, m !! h = Some o -> (h < n)%nat) ->
  forall h o, <[ n := v ]> m !! h = Some o -> (h < S n)%nat.
Proof.
  intros Hm h o. rewrite lookup_insert_Some. intros [[<- _]|[_ Hh]]; [lia|].
  apply Hm in Hh. lia.
Qed.

Lemma main_handles_below maxdim :
  handles_below (device (Host.main (fresh_device maxdim))).
Proof.
  unfold handles_below. cbn -[width height clamp_dimension ceil_div8].
  repeat apply insert_below. intros h o. rewrite lookup_empty. discriminate.
Qed.

Lemma on_resize_entry_handles_below entry s :
  handles_below (device s) -> handles_below (device (on_resize_entry entry s)).
Proof.
  destruct s as [[maxdim h0 objs q cs] cw ch csz tsz csh rp smp rbg].
  unfold handles_below. cbn -[width height clamp_dimension ceil_div8].
  intros H. repeat apply insert_below. exact H.
Qed.

(** In every state of a run the handles in use were handed out, and the
    image the manager refers to exists. *)
Lemma reachable_invariant s :
  reachable s ->
  handles_below (device s)
  /\ live_texture (device s) (texture (computeShader s)) = true
  /\ (texture (computeShader s) < next_handle (device s))%nat.
Proof.
  induction 1 as [maxdim|entry s Hr (IH1 & IH2 & IH3)].
  - split; [apply main_handles_below|]. split; [reflexivity|]. cbn. lia.
  - split; [now apply on_resize_entry_handles_below|].
    destruct s as [[maxdim h0 objs q cs] cw ch csz tsz csh rp smp rbg].
    unfold live_texture. cbn -[width height clamp_dimension ceil_div8].
    split; [|lia].
    rewrite lookup_insert_ne by lia. rewrite lookup_insert_ne by lia.
    rewrite lookup_insert_eq. reflexivity.
Qed.

(** Creating an object under a fresh handle adds one existing image if the
    object is a texture, and none otherwise. *)
Lemma size_live_insert_fresh (m : gmap handle GPUObject) n v :
  m !! n = None ->
  size (filter (fun ho => is_live_texture ho.2) (<[ n := v ]> m))
  = ((if is_live_texture v then 1 else 0)
     + size (filter (fun ho : handle * GPUObject => is_live_texture ho.2) m))%nat.
Proof.
  intros Hn. destruct (is_live_texture v) eqn:Hv.
  - rewrite map_filter_insert_True by (cbn; rewrite Hv; exact I).
    rewrite map_size_insert_None; [reflexivity|].
    rewrite map_lookup_filter_None. now left.
  - rewrite map_filter_insert_not'; [reflexivity | cbn; rewrite Hv; auto |].
    intros y Hy. congruence.
Qed.

Lemma fresh_above (d : Device) h :
  handles_below d -> (next_handle d <= h)%nat -> objects d !! h = None.
Proof.
  intros Hb Hh. destruct (objects d !! h) eqn:E; [|reflexivity].
  apply Hb in E. lia.
Qed.

(** A rebuild adds one existing image. *)
Lemma on_resize_entry_live_textures entry s :
  handles_below (device s) ->
  size (live_textures (device (on_resize_entry entry s)))
  = S (size (live_textures (device s))).
Proof.
  destruct s as [[maxdim h0 objs q cs] cw ch csz tsz csh rp smp rbg].
  intros Hb.
  assert (Hfresh : forall h, (h0 <= h)%nat -> objs !! h = None)
    by (intros h Hh; now apply (fresh_above _ h Hb)).
  unfold live_textures. cbn -[width height clamp_dimension ceil_div8 filter].
  repeat (rewrite size_live_insert_fresh;
          [| repeat (rewrite lookup_insert_ne by lia); apply Hfresh; lia]).
  reflexivity.
Qed.

(** C8, as stated, fails: nothing is ever destroyed.  After the start and
    one resize two Output Images exist, the prior one among them, and no
    call of the whole run is a [destroy]. *)
Lemma rebuild_keeps_the_prior_image :
  size (live_textures (device host_started)) = 1%nat
  /\ size (live_textures (device host_resized)) = 2%nat
  /\ live_texture (device host_resized) (texture (computeShader host_started))
     = true
  /\ texture (computeShader host_resized)
     <> texture (computeShader host_started)
  /\ existsb is_destroy (calls (device host_resized)) = false.
Proof. vm_compute. repeat split. discriminate. Qed.

(** C8 (amended): a rebuild does not destroy the prior Output Image.  It
    creates a new image of the current size under a fresh handle, next to a
    new shader module and pipeline, makes it the one image the manager
    refers to, and builds both Binding Sets against it.  The prior image
    and every other object stay as they were: each rebuild leaves one more
    Output Image in existence, and none of the calls made is a
    [destroy]. *)
Theorem rebuild_replaces_without_destroying entry s :
  reachable s ->
  let s' := on_resize_entry entry s in
  let prior := texture (computeShader s) in
  let image := texture (computeShader s') in
  image <> prior
  /\ objects (device s') !! image
     = Some (GPUTexture (fst (textureSize s')) (snd (textureSize s')) false)
  /\ objects (device s') !! bindGroup (computeShader s')
     = Some (GPUBindGroup (pipeline (computeShader s'))
                          [(0%nat, ResTextureView image)])
  /\ objects (device s') !! renderBindGroup s'
     = Some (GPUBindGroup (renderPipeline s)
                          [(0%nat, ResSampler (sampler s));
                           (1%nat, ResTextureView image)])
  /\ live_texture (device s') prior = true
  /\ (forall h o, objects (device s) !! h = Some o ->
                  objects (device s') !! h = Some o)
  /\ size (live_textures (device s')) = S (size (live_textures (device s)))
  /\ (exists new, calls (device s') = calls (device s) ++ new
                  /\ existsb is_destroy new = false).
Proof.
  intros Hr. destruct (reachable_invariant s Hr) as (Hb & Hlive & Hlt).
  pose proof (on_resize_entry_live_textures entry s Hb) as Hsize.
  destruct s as [[maxdim h0 objs q cs] cw ch csz tsz csh rp smp rbg].
  assert (Hkeep : forall h o, objs !! h = Some o ->
            objects (device (on_resize_entry entry
              (mkState (mkDevice maxdim h0 objs q cs) cw ch csz tsz csh rp
                       smp rbg))) !! h = Some o).
  { intros h o Hh. pose proof (Hb h o Hh) as Hlt'.
    cbn -[width height clamp_dimension ceil_div8] in Hlt' |- *.
    rewrite !lookup_insert_ne by lia. exact Hh. }
  cbn -[width height clamp_dimension ceil_div8 on_resize_entry] in Hlive, Hlt.
  cbv zeta.
  split; [|split; [|split; [|split; [|split; [|split; [|split]]]]]].
  - cbn -[width height clamp_dimension ceil_div8]. lia.
  - cbn -[width height clamp_dimension ceil_div8]. lookup_created.
  - cbn -[width height clamp_dimension ceil_div8]. lookup_created.
  - cbn -[width height clamp_dimension ceil_div8]. lookup_created.
  - unfold live_texture in Hlive |- *. cbn [device objects] in Hlive.
    destruct (objs !! texture csh) as [o|] eqn:E; [|discriminate].
    cbn [computeShader]. rewrite (Hkeep _ _ E). exact Hlive.
  - exact Hkeep.
  - exact Hsize.
  - cbn -[width height clamp_dimension ceil_div8]. eexists. split.
    + rewrite <- !app_assoc. reflexivity.
    + reflexivity.
Qed.

Lemma rebuild_replaces_without_destroying_witness :
  live_texture (device host_resized) (texture (computeShader host_started))
  = true
  /\ size (live_textures (device host_resized)) = 2%nat.
Proof.
  destruct (rebuild_replaces_without_destroying entry_800x600 host_started
              (reachable_main 8192))
    as (_ & _ & _ & _ & Hprior & _ & Hsize & _).
  split; [exact Hprior | exact Hsize].
Defined.

(** C9, as stated, fails: the notification asks for [800 x 600], below the
    device limit, and the surface and the Output Image stay [400 x 225]. *)
Lemma resize_ignores_the_requested_size :
  requested_size_spec (device host_started) entry_800x600 = (800, 600)
  /\ (canvas_width host_resized, canvas_height host_resized) = (400, 225)
  /\ textureSize host_resized = (400, 225)
  /\ (canvas_width host_resized, canvas_height host_resized)
     <> requested_size_spec (device host_started) entry_800x600.
Proof. vm_compute. repeat split. discriminate. Qed.

(** C9 (amended): on every entry of a resize notification the reactor sets
    the presentation surface and the Output Image to the fixed base size,
    width 400 and height 225, each clamped to [[1, deviceMaxDimension]] (the
    size the notification brings is not read), rebuilds the size-dependent
    resources and the Binding Sets, and then at once records and submits a
    frame. *)
Theorem resize_rebuilds_then_renders entry s :
  let s' := on_resize_entry entry s in
  let d := device s in
  let h0 := next_handle d in
  let size := (clamp_dimension d 400, clamp_dimension d 225) in
  (canvas_width s', canvas_height s') = size
  /\ 1 <= fst size <= Z.max 1 (limits_maxTextureDimension2D d)
  /\ 1 <= snd size <= Z.max 1 (limits_maxTextureDimension2D d)
  /\ context_size s' = Some size
  /\ textureSize s' = size
  /\ objects (device s') !! texture (computeShader s')
     = Some (GPUTexture (fst size) (snd size) false)
  /\ calls (device s')
     = calls d
       ++ [ CallConfigure (Some size);
            CallCreate h0 (GPUShaderModule ComputeShaderCode);
            CallCreate (S h0) (GPUComputePipeline h0);
            CallCreate (S (S h0)) (GPUTexture (fst size) (snd size) false);
            CallCreate (S (S (S h0)))
              (GPUBindGroup (S h0) [(0%nat, ResTextureView (S (S h0)))]);
            CallCreate (S (S (S (S h0))))
              (GPUBindGroup (renderPipeline s)
                 [(0%nat, ResSampler (sampler s));
                  (1%nat, ResTextureView (S (S h0)))]) ]
       ++ [ CallCreateCommandEncoder; CallSubmit (frame_commands s') ]
  /\ frame_commands s'
     = [ ComputePass (S h0) (S (S (S h0)))
           (ceil_div8 (fst size), ceil_div8 (snd size));
         RenderPass size (renderPipeline s) (S (S (S (S h0)))) 4 ]
  /\ queue (device s') = queue d ++ [frame_commands s'].
Proof.
  destruct s as [[maxdim h0 objs q cs] cw ch csz tsz csh rp smp rbg].
  change 225 with height.
  cbn -[width height clamp_dimension ceil_div8].
  repeat split; try apply clamp_dimension_range.
  - lookup_created.
  - rewrite <- !app_assoc. reflexivity.
Qed.

End HostClaims.

(** * Further properties of the code *)

(** ** The intersection test and the shading *)

Section IntersectionFurther.
Local Open Scope f32_scope.

(** The two ways out of [hit_sphere]: the zero-initialised record, or the
    record built from a root that passed both rejection tests. *)
Lemma hit_sphere_cases sphere r tMin tMax :
  hit_sphere sphere r tMin tMax = zero_HitRecord
  \/ exists root,
       (root = hs_root1 sphere r \/ root = hs_root2 sphere r)
       /\ (hs_discriminant sphere r <? f0_0) = false
       /\ (root <=? tMin) = false /\ (tMax <=? root) = false
       /\ hit_sphere sphere r tMin tMax = hs_accept sphere r root.
Proof.
  unfold hit_sphere.
  destruct (hs_discriminant sphere r <? f0_0) eqn:Hd; [now left|].
  destruct ((hs_root1 sphere r <=? tMin) || (tMax <=? hs_root1 sphere r))
    eqn:H1.
  - destruct ((hs_root2 sphere r <=? tMin) || (tMax <=? hs_root2 sphere r))
      eqn:H2; [now left|].
    apply orb_false_elim in H2 as [? ?]. right.
    exists (hs_root2 sphere r). auto 10.
  - apply orb_false_elim in H1 as [? ?]. right.
    exists (hs_root1 sphere r). auto 10.
Qed.

(** A normal turned against the direction by the test [dot < 0] faces it. *)
Lemma oriented_normal_faces (d n : vec3) :
  F32.is_nan (V3.dot d n) = false ->
  (V3.dot d (if V3.dot d n <? f0_0 then n else (- n)%v3) <=? f0_0) = true.
Proof.
  intros Hnan. destruct (V3.dot d n <? f0_0) eqn:Hlt.
  - now apply SFltb_SFleb.
  - unfold F32.leb, SFleb.
    rewrite (SFcompare_zsim_l _ _ f0_0 (dot_neg_r d n)).
    apply (SFleb_opp_zero _ false); [now apply is_nan_false | exact Hlt].
Qed.

(** X1: when [hit_sphere] reports a hit, [t] is one of the two roots, the
    discriminant was not negative, and [t] failed both rejection tests:
    neither [t <= tMin] nor [tMax <= t]; so [t] lies in the open interval
    [(tMin, tMax)] unless [t] or a bound is NaN. *)
Theorem hit_sphere_hit_within_bounds sphere r tMin tMax :
  rec_hit (hit_sphere sphere r tMin tMax) = true ->
  let t := rec_t (hit_sphere sphere r tMin tMax) in
  (t = hs_root1 sphere r \/ t = hs_root2 sphere r)
  /\ (hs_discriminant sphere r <? f0_0) = false
  /\ (t <=? tMin) = false /\ (tMax <=? t) = false
  /\ (F32.is_nan t = false -> F32.is_nan tMin = false ->
      F32.is_nan tMax = false -> in_open_interval tMin tMax t = true).
Proof.
  intros Hhit t. subst t.
  destruct (hit_sphere_cases sphere r tMin tMax)
    as [E|(root & Hroot & Hd & Hlo & Hhi & E)]; rewrite E in *;
    [discriminate|].
  cbn [hs_accept rec_t]. repeat split; try assumption.
  intros Ht Hmin Hmax.
  pose proof (reject_iff_outside tMin tMax root Hmin Hmax Ht) as Hrej.
  rewrite Hlo, Hhi in Hrej. cbn in Hrej.
  now destruct (in_open_interval tMin tMax root).
Qed.

Lemma hit_sphere_hit_within_bounds_witness :
  in_open_interval f0_0 f10000_0
    (rec_t (hit_sphere scene_sphere ray_forward f0_0 f10000_0)) = true.
Proof.
  destruct (hit_sphere_hit_within_bounds scene_sphere ray_forward f0_0
              f10000_0 eq_refl) as (_ & _ & _ & _ & Hin).
  apply Hin; reflexivity.
Defined.

(** X2: when [hit_sphere] reports a miss, no field of the record was
    written: it is the zero-initialised record, with [t = 0], [p] and
    [normal] the zero vector and [front_face] false. *)
Theorem hit_sphere_miss_record sphere r tMin tMax :
  rec_hit (hit_sphere sphere r tMin tMax) = false ->
  let rec := hit_sphere sphere r tMin tMax in
  rec_t rec = f0_0 /\ rec_p rec = Vec3 f0_0 f0_0 f0_0
  /\ rec_normal rec = Vec3 f0_0 f0_0 f0_0 /\ rec_front_face rec = false.
Proof.
  intros Hmiss rec. subst rec.
  destruct (hit_sphere_cases sphere r tMin tMax)
    as [E|(root & _ & _ & _ & _ & E)]; rewrite E in *;
    [repeat split | discriminate].
Qed.

Lemma hit_sphere_miss_record_witness :
  rec_t (hit_sphere scene_sphere ray_up f0_0 f10000_0) = f0_0
  /\ rec_front_face (hit_sphere scene_sphere ray_up f0_0 f10000_0) = false.
Proof.
  destruct (hit_sphere_miss_record scene_sphere ray_up f0_0 f10000_0 eq_refl)
    as (Ht & _ & _ & Hf).
  split; [exact Ht | exact Hf].
Defined.

(** X3: in a record that reports a hit, [p] is the point of the ray at [t];
    [front_face] tells whether the geometric normal [(p - center) / radius]
    opposes the direction of the ray; [normal] is the geometric normal when
    it does and its negation when it does not; and [normal] faces the ray,
    [dot(direction, normal) <= 0], whenever the [dot] with the geometric
    normal is not NaN. *)
Theorem hit_sphere_hit_record sphere r tMin tMax :
  rec_hit (hit_sphere sphere r tMin tMax) = true ->
  let rec := hit_sphere sphere r tMin tMax in
  let outward := ((rec_p rec - center sphere) /^ radius sphere)%v3 in
  rec_p rec = rayAt r (rec_t rec)
  /\ rec_front_face rec = (V3.dot (direction r) outward <? f0_0)
  /\ rec_normal rec = (if rec_front_face rec then outward else (- outward)%v3)
  /\ (F32.is_nan (V3.dot (direction r) outward) = false ->
      (V3.dot (direction r) (rec_normal rec) <=? f0_0) = true).
Proof.
  intros Hhit.
  destruct (hit_sphere_cases sphere r tMin tMax)
    as [E|(root & _ & _ & _ & _ & E)]; rewrite E in *; [discriminate|].
  clear E Hhit. cbv zeta. unfold hs_accept, setFaceNormal. cbv zeta.
  cbn [rec_p rec_t rec_normal rec_front_face].
  set (outward := ((rayAt r root - center sphere) /^ radius sphere)%v3).
  pose proof (oriented_normal_faces (direction r) outward) as Hface.
  destruct (V3.dot (direction r) outward <? f0_0);
    cbn [fnr_front_face fnr_normal]; repeat split; exact Hface.
Qed.

Lemma hit_sphere_hit_record_witness :
  let rec := hit_sphere scene_sphere ray_forward f0_0 f10000_0 in
  rec_front_face rec = true
  /\ (V3.dot (direction ray_forward) (rec_normal rec) <=? f0_0) = true.
Proof.
  destruct (hit_sphere_hit_record scene_sphere ray_forward f0_0 f10000_0
              eq_refl) as (_ & Hff & _ & Hle).
  split; [exact Hff | apply Hle; reflexivity].
Defined.

(** X4: the test [rec.t > 0.0] by which [rayColor] chooses its branch
    agrees with the [hit] flag it does not read, but for a NaN root: it is
    true exactly when [hit_sphere] reports a hit and [t] is not NaN.  So
    [rayColor] shades by the normal on those records and returns the
    gradient on all others. *)
Theorem rayColor_test_agrees_with_hit ray :
  let rec := hit_sphere scene_sphere ray f0_0 f10000_0 in
  let N := V3.normalize (rayAt ray (rec_t rec) - Vec3 f0_0 f0_0 fm1_0)%v3 in
  (rec_t rec >? f0_0) = rec_hit rec && negb (F32.is_nan (rec_t rec))
  /\ rayColor ray
     = if rec_hit rec && negb (F32.is_nan (rec_t rec))
       then (f0_5 ^* Vec3 (vx N + f1_0) (vy N + f1_0) (vz N + f1_0))%v3
       else gradient ray.
Proof.
  cbv zeta.
  assert (H : (rec_t (hit_sphere scene_sphere ray f0_0 f10000_0) >? f0_0)
              = rec_hit (hit_sphere scene_sphere ray f0_0 f10000_0)
                && negb (F32.is_nan
                           (rec_t (hit_sphere scene_sphere ray f0_0 f10000_0)))).
  { destruct (hit_sphere_cases scene_sphere ray f0_0 f10000_0)
      as [E|(root & _ & _ & Hlo & _ & E)]; rewrite E; [reflexivity|].
    cbn [hs_accept rec_t rec_hit andb].
    destruct (F32.is_nan root) eqn:Hn.
    - destruct root; try discriminate. reflexivity.
    - unfold F32.leb in Hlo.
      rewrite (SFleb_negb_SFltb root f0_0) in Hlo;
        [| now apply is_nan_false | discriminate].
      now apply negb_false_iff in Hlo. }
  split; [exact H|].
  unfold rayColor, shade. rewrite H.
  now destruct (_ && _)%bool.
Qed.

End IntersectionFurther.

(** ** The kernel and its dispatch *)

Section KernelFurther.

Lemma i32_of_u32_of_i32 z :
  - 2 ^ 31 <= z < 2 ^ 31 -> i32_of_u32 (u32_of_i32 z) = z.
Proof.
  intros Hz. unfold i32_of_u32, u32_of_i32.
  rewrite Z2N.id by (apply Z.mod_pos_bound; lia).
  rewrite Z.mod_mod by lia.
  destruct (Z.ltb_spec z 0).
  - replace (z mod 2 ^ 32) with (z + 2 ^ 32)
      by (apply (Z.mod_unique z (2 ^ 32) (-1)); lia).
    destruct (Z.ltb_spec (z + 2 ^ 32) (2 ^ 31)); lia.
  - rewrite Z.mod_small by lia. destruct (Z.ltb_spec z (2 ^ 31)); lia.
Qed.

Lemma i32_of_u32_range (n : u32) : - 2 ^ 31 <= i32_of_u32 n < 2 ^ 31.
Proof.
  unfold i32_of_u32. pose proof (Z.mod_pos_bound (Z.of_N n) (2 ^ 32)).
  destruct (Z.ltb_spec (Z.of_N n mod 2 ^ 32) (2 ^ 31)); lia.
Qed.

Lemma u32_of_i32_of_u32 (n : u32) :
  (n < 2 ^ 32)%N -> u32_of_i32 (i32_of_u32 n) = n.
Proof.
  intros Hn.
  assert (Hn' : 0 <= Z.of_N n < 2 ^ 32)
    by (change (2 ^ 32) with (Z.of_N (2 ^ 32)%N); lia).
  unfold u32_of_i32, i32_of_u32. rewrite (Z.mod_small (Z.of_N n)) by lia.
  destruct (Z.ltb_spec (Z.of_N n) (2 ^ 31)).
  - rewrite Z.mod_small by lia. apply N2Z.id.
  - replace ((Z.of_N n - 2 ^ 32) mod 2 ^ 32) with (Z.of_N n)
      by (apply (Z.mod_unique (Z.of_N n - 2 ^ 32) (2 ^ 32) (-1)); lia).
    apply N2Z.id.
Qed.

Lemma is_pixel_key_spec dims k :
  u32_dims dims -> is_pixel_key dims k = true <-> pixel_key dims k.
Proof.
  intros [Hw Hh]. destruct k as [kx ky]. unfold is_pixel_key, pixel_key.
  cbn [fst snd].
  rewrite !andb_true_iff, !Z.leb_le, !Z.ltb_lt, !N.ltb_lt. split.
  - intros (((((? & ?) & ?) & ?) & Hx) & Hy).
    exists (u32_of_i32 kx), (u32_of_i32 ky).
    rewrite !i32_of_u32_of_i32 by lia. auto.
  - intros (x & y & Hx & Hy & E). inversion E; subst; clear E.
    pose proof (i32_of_u32_range x). pose proof (i32_of_u32_range y).
    rewrite !u32_of_i32_of_u32 by lia. repeat split; lia || assumption.
Qed.

Lemma run_invocations_dims ids output :
  tex_dims (run_invocations ids output) = tex_dims output.
Proof.
  revert output. induction ids as [|id ids IH]; intros output; [reflexivity|].
  change (run_invocations (id :: ids) output)
    with (run_invocations ids (main output id)).
  rewrite IH. apply main_dims.
Qed.

Lemma main_lookup_outside output id k :
  ~ pixel_key (tex_dims output) k ->
  tex_texels (main output id) !! k = tex_texels output !! k.
Proof.
  intros Hk. rewrite main_writes.
  destruct (in_bounds _ _) eqn:Hb; [|reflexivity].
  unfold textureStore; cbn [tex_texels v2x v2y]. apply lookup_insert_ne.
  intros <-. apply Hk. unfold in_bounds in Hb.
  apply andb_prop in Hb as [Hx Hy]. apply N.ltb_lt in Hx. apply N.ltb_lt in Hy.
  exists (idx id), (idy id). auto.
Qed.

Lemma run_lookup_outside ids output k :
  ~ pixel_key (tex_dims output) k ->
  tex_texels (run_invocations ids output) !! k = tex_texels output !! k.
Proof.
  revert output. induction ids as [|id ids IH]; intros output Hk;
    [reflexivity|].
  change (run_invocations (id :: ids) output)
    with (run_invocations ids (main output id)).
  rewrite IH by (now rewrite main_dims). now apply main_lookup_outside.
Qed.

Lemma run_frame_texel ids output x y :
  u32_dims (tex_dims output) -> ids ≡ₚ frame_grid (tex_dims output) ->
  (x < v2x (tex_dims output))%N -> (y < v2y (tex_dims output))%N ->
  texel_at (run_invocations ids output) x y
  = Some (pixel_texel (tex_dims output) (Vec2 x y)).
Proof.
  intros Hd Hp Hx Hy. rewrite run_texel_at by assumption.
  rewrite existsb_at_pixel; [reflexivity|].
  rewrite Hp. now apply frame_grid_covers.
Qed.

Lemma texture_eq (t1 t2 : Texture) :
  tex_dims t1 = tex_dims t2 ->
  (forall k, tex_texels t1 !! k = tex_texels t2 !! k) -> t1 = t2.
Proof.
  destruct t1 as [d1 m1], t2 as [d2 m2]; cbn. intros -> H.
  f_equal. now apply map_eq.
Qed.

Lemma NoDup_grid_ids gx gy : NoDup (grid_ids gx gy).
Proof.
  unfold grid_ids. apply NoDup_bind; [| |apply NoDup_seq].
  - intros y1 y2 id _ _ H1 H2.
    apply list_elem_of_bind in H1 as (x1 & H1 & _).
    apply list_elem_of_bind in H2 as (x2 & H2 & _).
    apply list_elem_of_singleton in H1. apply list_elem_of_singleton in H2.
    subst id. inversion H2. lia.
  - intros y _. apply NoDup_bind; [| |apply NoDup_seq].
    + intros x1 x2 id _ _ H1 H2.
      apply list_elem_of_singleton in H1. apply list_elem_of_singleton in H2.
      subst id. inversion H2. lia.
    + intros x _. apply NoDup_singleton.
Qed.

Lemma NoDup_all_equal {A} (l : list A) c :
  NoDup l -> c ∈ l -> (forall a, a ∈ l -> a = c) -> l = [c].
Proof.
  intros Hnd Hc Hall. destruct l as [|a l]; [inversion Hc|].
  assert (a = c) by (apply Hall; left). subst a.
  destruct l as [|b l]; [reflexivity|].
  assert (b = c) by (apply Hall; right; left). subst b.
  inversion Hnd as [|? ? Hnot _]. exfalso. apply Hnot. left.
Qed.

(** X5: one invocation changes at most the texel at its own coordinate: it
    leaves every other texel, and the dimensions, as they were. *)
Theorem main_touches_its_texel_only output id k :
  k <> (i32_of_u32 (idx id), i32_of_u32 (idy id)) ->
  tex_texels (main output id) !! k = tex_texels output !! k
  /\ tex_dims (main output id) = tex_dims output.
Proof.
  intros Hk. split; [|apply main_dims].
  rewrite main_writes. destruct (in_bounds _ _); [|reflexivity].
  unfold textureStore; cbn [tex_texels v2x v2y]. now apply lookup_insert_ne.
Qed.

Lemma main_touches_its_texel_only_witness :
  tex_texels (main tex_2x2_used (UVec3 1%N 1%N 0%N)) !! (0, 0)
  = Some (Vec4 f0_0 f0_0 f0_0 f1_0).
Proof.
  destruct (main_touches_its_texel_only tex_2x2_used (UVec3 1%N 1%N 0%N)
              (0, 0)) as [Hk _]; [vm_compute; discriminate|].
  rewrite Hk. reflexivity.
Defined.

(** X6: no run of invocations, whatever their ids, their number and their
    order, changes a texel outside the image. *)
Theorem run_leaves_outside_unchanged ids output k :
  u32_dims (tex_dims output) ->
  is_pixel_key (tex_dims output) k = false ->
  tex_texels (run_invocations ids output) !! k = tex_texels output !! k.
Proof.
  intros Hd Hk. apply run_lookup_outside.
  rewrite <- is_pixel_key_spec by assumption. congruence.
Qed.

Lemma run_leaves_outside_unchanged_witness :
  tex_texels (run_invocations (frame_grid (Vec2 2%N 2%N)) tex_2x2) !! (2, 0)
  = None.
Proof.
  rewrite (run_leaves_outside_unchanged (frame_grid (Vec2 2%N 2%N)) tex_2x2
             (2, 0)); [reflexivity | split; reflexivity | reflexivity].
Defined.

(** X7: a frame run on a texture without texels fills the image and nothing
    else: afterwards a coordinate holds a texel exactly when it is a pixel
    of the image, and the texel is the one of that pixel. *)
Theorem frame_fills_the_image ids dims k :
  u32_dims dims -> ids ≡ₚ frame_grid dims ->
  tex_texels (run_invocations ids (mkTexture dims ∅)) !! k
  = if is_pixel_key dims k
    then Some (pixel_texel dims (Vec2 (u32_of_i32 k.1) (u32_of_i32 k.2)))
    else None.
Proof.
  intros Hd Hp.
  destruct (is_pixel_key dims k) eqn:Hk.
  - apply is_pixel_key_spec in Hk as (x & y & Hx & Hy & ->); [|assumption].
    cbn [fst snd]. destruct Hd as [Hw Hh].
    rewrite !u32_of_i32_of_u32 by lia.
    apply (run_frame_texel ids (mkTexture dims ∅) x y); try assumption.
    now split.
  - rewrite run_lookup_outside; [apply lookup_empty|].
    cbn [tex_dims]. rewrite <- is_pixel_key_spec by assumption. congruence.
Qed.

Lemma frame_fills_the_image_witness :
  tex_texels (run_invocations (frame_grid (Vec2 2%N 2%N)) tex_2x2) !! (1, 1)
  = Some (pixel_texel (Vec2 2%N 2%N) (Vec2 1%N 1%N)).
Proof.
  apply (frame_fills_the_image (frame_grid (Vec2 2%N 2%N)) (Vec2 2%N 2%N)
           (1, 1)); [split; reflexivity | reflexivity].
Defined.

(** X8: once a frame has run, running any further invocations, a second
    frame or any others, leaves the texture as it is. *)
Theorem frame_absorbs_further_invocations ids ids' output :
  u32_dims (tex_dims output) -> ids ≡ₚ frame_grid (tex_dims output) ->
  run_invocations ids' (run_invocations ids output)
  = run_invocations ids output.
Proof.
  intros Hd Hp. apply texture_eq; [now rewrite !run_invocations_dims|].
  intros k.
  destruct (is_pixel_key (tex_dims output) k) eqn:Hk;
    [apply is_pixel_key_spec in Hk as (x & y & Hx & Hy & ->); [|assumption]
    |assert (Hk' : ~ pixel_key (tex_dims output) k)
       by (rewrite <- is_pixel_key_spec by assumption; congruence)].
  - change (texel_at (run_invocations ids' (run_invocations ids output)) x y
            = texel_at (run_invocations ids output) x y).
    rewrite (run_texel_at ids') by (rewrite run_invocations_dims; assumption).
    rewrite run_invocations_dims.
    rewrite (run_frame_texel ids output x y) by assumption.
    now destruct (existsb _ _).
  - apply run_lookup_outside. now rewrite run_invocations_dims.
Qed.

Lemma frame_absorbs_further_invocations_witness :
  run_invocations (reverse (frame_grid (Vec2 2%N 2%N)))
    (run_invocations (frame_grid (Vec2 2%N 2%N)) tex_2x2_used)
  = run_invocations (frame_grid (Vec2 2%N 2%N)) tex_2x2_used.
Proof.
  apply (frame_absorbs_further_invocations (frame_grid (Vec2 2%N 2%N))
           (reverse (frame_grid (Vec2 2%N 2%N))) tex_2x2_used);
    [split; reflexivity | reflexivity].
Defined.

(** X9: the kernel stores alpha 1 only: if every texel of the texture has
    alpha 1 before a run of invocations, every texel has it after. *)
Theorem run_keeps_alpha_one ids output :
  opaque_texels output -> opaque_texels (run_invocations ids output).
Proof.
  revert output. induction ids as [|id ids IH]; intros output H; [exact H|].
  change (run_invocations (id :: ids) output)
    with (run_invocations ids (main output id)).
  apply IH. rewrite main_writes. destruct (in_bounds _ _); [|exact H].
  unfold opaque_texels, textureStore; cbn [tex_texels].
  apply map_Forall_insert_2; [reflexivity | exact H].
Qed.

Lemma run_keeps_alpha_one_witness :
  opaque_texels (run_invocations (frame_grid (Vec2 2%N 2%N)) tex_2x2).
Proof.
  apply (run_keeps_alpha_one (frame_grid (Vec2 2%N 2%N)) tex_2x2).
  apply map_Forall_empty.
Defined.

(** X10: the frame's dispatch addresses every pixel of the image exactly
    once: among its invocations exactly one has the coordinate of the
    pixel. *)
Theorem frame_addresses_each_pixel_once dims x y :
  (x < v2x dims)%N -> (y < v2y dims)%N ->
  List.filter (at_pixel x y) (frame_grid dims) = [UVec3 x y 0%N].
Proof.
  intros Hx Hy. apply NoDup_all_equal.
  - apply NoDup_ListNoDup, List.NoDup_filter, NoDup_ListNoDup, NoDup_grid_ids.
  - apply list_elem_of_In, filter_In. split.
    + apply list_elem_of_In. now apply frame_grid_covers.
    + unfold at_pixel; cbn. now rewrite !N.eqb_refl.
  - intros id Hid. apply list_elem_of_In, filter_In in Hid as [Hin Hat].
    apply list_elem_of_In, elem_of_grid_ids in Hin as (_ & _ & Hz).
    unfold at_pixel in Hat. apply andb_prop in Hat as [Ex Ey].
    apply N.eqb_eq in Ex. apply N.eqb_eq in Ey.
    destruct id; cbn in *; congruence.
Qed.

Lemma frame_addresses_each_pixel_once_witness :
  List.filter (at_pixel 400%N 224%N) (frame_grid (Vec2 401%N 225%N))
  = [UVec3 400%N 224%N 0%N].
Proof.
  apply (frame_addresses_each_pixel_once (Vec2 401%N 225%N) 400%N 224%N);
    reflexivity.
Defined.

(** X11: [Math.ceil(n / 8)] workgroups of 8 cover a side of [n] and
    overhang it by fewer than 8 invocations. *)
Theorem dispatch_covers_with_overhang_below_8 n :
  n <= 8 * Host.ceil_div8 n < n + 8.
Proof.
  rewrite ceil_div8_eq.
  pose proof (Z.div_mod (- n) 8). pose proof (Z.mod_pos_bound (- n) 8). lia.
Qed.

End KernelFurther.

(** ** The host along a run *)

Section HostFurther.
Import Gpu Host.

Ltac lookup_object :=
  repeat (rewrite lookup_insert_ne by lia);
  try rewrite lookup_insert_eq; reflexivity.

(** A resize removes and changes no object. *)
Lemma on_resize_entry_keeps_objects entry s h o :
  handles_below (device s) -> objects (device s) !! h = Some o ->
  objects (device (on_resize_entry entry s)) !! h = Some o.
Proof.
  destruct s as [[maxdim h0 objs q cs] cw ch csz tsz csh rp smp rbg].
  intros Hb Hh. pose proof (Hb h o Hh) as Hlt.
  cbn -[width height clamp_dimension ceil_div8] in Hlt, Hh |- *.
  rewrite !lookup_insert_ne by lia. exact Hh.
Qed.

Lemma main_resources_consistent maxdim :
  resources_consistent (Host.main (fresh_device maxdim)).
Proof.
  unfold resources_consistent.
  cbn -[width height clamp_dimension ceil_div8].
  split; [reflexivity|]. split; [reflexivity|].
  split; [lookup_object|]. split; [lookup_object|].
  split; [exists 0%nat; split; lookup_object|].
  split; [lookup_object|]. split; [lookup_object|].
  split; [exists 4%nat; split; lookup_object|]. reflexivity.
Qed.

Lemma on_resize_entry_resources_consistent entry s :
  handles_below (device s) -> resources_consistent s ->
  resources_consistent (on_resize_entry entry s).
Proof.
  intros Hb (_ & _ & _ & _ & _ & _ & Hsmp & (m & Hrp & Hm) & _).
  pose proof (on_resize_entry_keeps_objects entry s _ _ Hb Hsmp) as Hsmp'.
  pose proof (on_resize_entry_keeps_objects entry s _ _ Hb Hrp) as Hrp'.
  pose proof (on_resize_entry_keeps_objects entry s _ _ Hb Hm) as Hm'.
  destruct s as [[maxdim h0 objs q cs] cw ch csz tsz csh rp smp rbg].
  unfold resources_consistent.
  cbn -[width height clamp_dimension ceil_div8] in Hsmp', Hrp', Hm' |- *.
  split; [reflexivity|]. split; [reflexivity|].
  split; [lookup_object|]. split; [lookup_object|].
  split; [exists h0; split; lookup_object|].
  split; [lookup_object|]. split; [exact Hsmp'|].
  split; [exists m; split; assumption|].
  rewrite last_snoc. reflexivity.
Qed.

Lemma reachable_consistent s : reachable s -> resources_consistent s.
Proof.
  induction 1 as [maxdim|entry s Hr IH].
  - apply main_resources_consistent.
  - apply on_resize_entry_resources_consistent; [|exact IH].
    now apply reachable_invariant.
Qed.

Lemma frame_ok_mono d d' cb :
  (forall h o, objects d !! h = Some o -> objects d' !! h = Some o) ->
  frame_ok d cb -> frame_ok d' cb.
Proof.
  intros Hk (p & bg & rp & rbg & tex & smp & w & h & E & H1 & H2 & H3).
  exists p, bg, rp, rbg, tex, smp, w, h. auto.
Qed.

Lemma consistent_frame_ok s :
  resources_consistent s -> frame_ok (device s) (frame_commands s).
Proof.
  intros (Hc & _ & Htex & Hbg & _ & Hrbg & _).
  exists (pipeline (computeShader s)), (bindGroup (computeShader s)),
         (renderPipeline s), (renderBindGroup s), (texture (computeShader s)),
         (sampler s), (fst (textureSize s)), (snd (textureSize s)).
  repeat split; try assumption.
  unfold frame_commands. rewrite Hc. now destruct (textureSize s).
Qed.

Lemma on_resize_entry_queue entry s :
  queue (device (on_resize_entry entry s))
  = queue (device s) ++ [frame_commands (on_resize_entry entry s)].
Proof. destruct s as [[? ? ? ? ?] ? ? ? ? ? ? ? ?]. reflexivity. Qed.



(** X12: in every state the program reaches the resources fit together:
    the surface, [textureSize] and the image the manager refers to have one
    size, the base size clamped by the device limit; the kernel's bind
    group binds that image, and the presentation bind group binds the
    sampler and that same image, so no binding is left on a prior image;
    and the frame submitted last was recorded from these resources. *)
Theorem reachable_resources_consistent s :
  reachable s -> resources_consistent s.
Proof.
  induction 1 as [maxdim|entry s Hr IH].
  - apply main_resources_consistent.
  - destruct (reachable_invariant s Hr) as (Hb & _).
    now apply on_resize_entry_resources_consistent.
Qed.

Lemma reachable_resources_consistent_witness :
  resources_consistent host_resized.
Proof.
  apply (reachable_resources_consistent host_resized).
  apply (reachable_resize entry_800x600 host_started), (reachable_main 8192).
Defined.

(** X13: every frame the program has submitted fits the image it works
    on: it is a compute pass followed by a render pass of four vertices;
    the compute pass runs [ceil(w/8)] by [ceil(h/8)] workgroups on a bind
    group whose image exists and is [w] by [h]; the render pass draws on a
    target of that size with a bind group on the same image. *)
Theorem every_submitted_frame_fits_its_image s :
  reachable s -> Forall (frame_ok (device s)) (queue (device s)).
Proof.
  induction 1 as [maxdim|entry s Hr IH].
  - pose proof (main_resources_consistent maxdim) as Hc.
    apply consistent_frame_ok in Hc.
    change (queue (device (Host.main (fresh_device maxdim))))
      with ([] ++ [frame_commands (Host.main (fresh_device maxdim))]).
    apply Forall_app; split; [constructor|]. now apply Forall_singleton.
  - destruct (reachable_invariant s Hr) as (Hb & _).
    rewrite on_resize_entry_queue. apply Forall_app. split.
    + eapply Forall_impl; [exact IH|]. intros cb. apply frame_ok_mono.
      intros h o. now apply on_resize_entry_keeps_objects.
    + apply Forall_singleton, consistent_frame_ok.
      apply on_resize_entry_resources_consistent; [exact Hb|].
      now apply reachable_consistent.
Qed.

Lemma every_submitted_frame_fits_its_image_witness :
  Forall (frame_ok (device host_resized)) (queue (device host_resized)).
Proof.
  apply (every_submitted_frame_fits_its_image host_resized).
  apply (reachable_resize entry_800x600 host_started), (reachable_main 8192).
Defined.



(** X15: with a device limit of at least 1, in every state the program
    reaches the image is 400 by 225 cut down to the limit: its sides are
    [min(400, limit)] and [min(225, limit)], they lie between 1 and the
    limit, the image exists with that size, and the surface has it too. *)
Theorem image_size_within_device_limit s :
  reachable s ->
  1 <= limits_maxTextureDimension2D (device s) ->
  let limit := limits_maxTextureDimension2D (device s) in
  textureSize s = (Z.min 400 limit, Z.min 225 limit)
  /\ (canvas_width s, canvas_height s) = textureSize s
  /\ objects (device s) !! texture (computeShader s)
     = Some (GPUTexture (Z.min 400 limit) (Z.min 225 limit) false)
  /\ 1 <= Z.min 400 limit <= limit /\ 1 <= Z.min 225 limit <= limit.
Proof.
  intros Hr Hlim limit.
  destruct (reachable_consistent s Hr) as (Hc & Hts & Htex & _).
  destruct host_height as [Hw Hh].
  assert (E : textureSize s = (Z.min 400 limit, Z.min 225 limit)).
  { rewrite Hts. unfold clamp_dimension. rewrite Hw, Hh.
    subst limit. f_equal; lia. }
  rewrite E in Htex, Hc. rewrite E. cbn [fst snd] in Htex.
  repeat split; try assumption; subst limit; lia.
Qed.

Lemma image_size_within_device_limit_witness :
  textureSize host_resized = (400, 225)
  /\ objects (device host_resized) !! texture (computeShader host_resized)
     = Some (GPUTexture 400 225 false).
Proof.
  destruct (image_size_within_device_limit host_resized
              (reachable_resize entry_800x600 host_started
                                (reachable_main 8192)))
    as (Hts & _ & Htex & _); [vm_compute; discriminate|].
  split; [exact Hts | exact Htex].
Defined.

End HostFurther.

(** ** The sign of what the kernel computes *)

Section Signs.
Variables prec emax : Z.

(** Rounding keeps the sign it is given. *)
Lemma binary_round_aux_sign s m e l :
  sign_or_nan s (binary_round_aux prec emax s m e l).
Proof.
  unfold binary_round_aux.
  destruct (shr_fexp prec emax m e l) as [mrs' e'].
  destruct (shr_fexp prec emax _ e' loc_Exact) as [mrs'' e''].
  destruct (shr_m mrs''); cbn; try reflexivity.
  destruct (e'' <=? emax - prec); reflexivity.
Qed.

Lemma SFmul_self_sign x : sign_or_nan false (SFmul prec emax x x).
Proof.
  destruct x as [s|s| |s m e]; cbn; try (destruct s; reflexivity);
    try exact I.
  rewrite xorb_nilpotent. apply binary_round_aux_sign.
Qed.

Lemma SFadd_sign x y :
  sign_or_nan false x -> sign_or_nan false y ->
  sign_or_nan false (SFadd prec emax x y).
Proof.
  destruct x as [sx|sx| |sx mx ex], y as [sy|sy| |sy my ey]; cbn;
    intros Hx Hy; subst; try reflexivity; try exact I.
  unfold binary_normalize, cond_Zopp.
  match goal with |- context [(Z.pos ?a + Z.pos ?b)] =>
    change (Z.pos a + Z.pos b) with (Z.pos (a + b)) end.
  cbv beta iota. unfold binary_round.
  destruct (shl_align _ _ _) as [mz ez]. apply binary_round_aux_sign.
Qed.

Lemma SFsqrt_sign x :
  sign_or_nan false x -> sign_or_nan false (SFsqrt prec emax x).
Proof.
  destruct x as [s|s| |s m e]; cbn; intros H; subst; try reflexivity;
    try exact I.
  destruct (SFsqrt_core_binary prec emax (Z.pos m) e) as [[mz ez] lz].
  apply binary_round_aux_sign.
Qed.

Lemma SFdiv_sign s x y :
  sign_or_nan s x -> sign_or_nan false y ->
  sign_or_nan s (SFdiv prec emax x y).
Proof.
  destruct x as [sx|sx| |sx mx ex], y as [sy|sy| |sy my ey]; cbn;
    intros Hx Hy; subst; rewrite ?xorb_false_r; try reflexivity;
    try exact I.
  destruct (SFdiv_core_binary prec emax (Z.pos mx) ex (Z.pos my) ey)
    as [[mz ez] lz].
  apply binary_round_aux_sign.
Qed.

End Signs.

Lemma dot_self_sign (v : vec3) : sign_or_nan false (V3.dot v v).
Proof.
  unfold V3.dot, F32.add, F32.mul.
  repeat apply SFadd_sign; apply SFmul_self_sign.
Qed.

Lemma length_sign (v : vec3) : sign_or_nan false (V3.length v).
Proof. apply SFsqrt_sign, dot_self_sign. Qed.

Lemma not_positive_of_sign x : sign_or_nan true x -> F32.ltb f0_0 x = false.
Proof. destruct x as [s|s| |s m e]; cbn; intros H; subst; reflexivity. Qed.

Lemma not_negative_of_sign x : sign_or_nan false x -> F32.ltb x f0_0 = false.
Proof. destruct x as [s|s| |s m e]; cbn; intros H; subst; reflexivity. Qed.

(** X18: whatever the image and the pixel, the camera ray [createRay]
    builds starts at the origin and never points backwards: the [z] of its
    direction is never positive.  And for every ray the coefficient
    [a = dot(direction, direction)] of [hit_sphere] is never negative, so
    dividing by it never turns the sign of a root. *)
Theorem createRay_points_forward output uv r :
  origin (createRay output uv) = Vec3 f0_0 f0_0 f0_0
  /\ F32.ltb f0_0 (vz (direction (createRay output uv))) = false
  /\ F32.ltb (hs_a r) f0_0 = false.
Proof.
  split; [reflexivity|]. split.
  - apply not_positive_of_sign. unfold createRay, V3.normalize, V3.divs.
    cbn [direction vz]. apply SFdiv_sign; [reflexivity|apply length_sign].
  - apply not_negative_of_sign, dot_self_sign.
Qed.

(** ** The quad of the presentation pass *)

Section PresentationFurther.
Local Open Scope f32_scope.

(** X17: for each of the four vertex indices of the draw, [vertexMain]
    places the vertex at a corner of clip space, [x] and [y] being [-1] or
    [1], with [z = 0] and [w = 1], and gives it the texture coordinate
    [((x + 1) / 2, (y + 1) / 2)]: the corners of the quad map to the
    corresponding corners of the image, without a flip; different indices
    give different corners. *)
Theorem vertexMain_quad i :
  (i < 4)%N ->
  exists out,
    vertexMain i = Some out
    /\ (wx (position out) = fm1_0 \/ wx (position out) = f1_0)
    /\ (wy (position out) = fm1_0 \/ wy (position out) = f1_0)
    /\ wz (position out) = f0_0 /\ ww (position out) = f1_0
    /\ v2x (uv out) = (wx (position out) + f1_0) / f2_0
    /\ v2y (uv out) = (wy (position out) + f1_0) / f2_0
    /\ (forall j out', (j < 4)%N -> vertexMain j = Some out' ->
                       position out' = position out -> j = i).
Proof.
  intros Hi.
  assert (Hcases : i = 0%N \/ i = 1%N \/ i = 2%N \/ i = 3%N) by lia.
  assert (Hall : forall j, (j < 4)%N ->
                   j = 0%N \/ j = 1%N \/ j = 2%N \/ j = 3%N) by (intros; lia).
  destruct Hcases as [-> | [-> | [-> | ->]]]; eexists;
    (split; [reflexivity|]);
    (split; [vm_compute; auto|]); (split; [vm_compute; auto|]);
    (split; [reflexivity|]); (split; [reflexivity|]);
    (split; [reflexivity|]); (split; [reflexivity|]);
    intros j out' Hj Hv Hp;
    destruct (Hall j Hj) as [-> | [-> | [-> | ->]]];
    try reflexivity; vm_compute in Hv; inversion Hv; subst out';
    vm_compute in Hp; discriminate.
Qed.

Lemma vertexMain_quad_witness :
  exists out, vertexMain 2%N = Some out
              /\ uv out = Vec2 f0_0 f1_0
              /\ wx (position out) = fm1_0 /\ wy (position out) = f1_0.
Proof.
  destruct (vertexMain_quad 2%N) as (out & Hv & _); [reflexivity|].
  exists out. split; [exact Hv|].
  vm_compute in Hv. inversion Hv. repeat split.
Defined.

End PresentationFurther.
